(** * go-p2p: configuration options and the fallback-default pass

    A shallow embedding of [options.go] and [defaults.go] (package [p2p]).
    An [Option] of the Go code is a closure [func(cfg *Config) error] that
    mutates the [Config] it is given; here it is a function from the
    [Config] before the call to the [Config] after it, paired with the
    returned [error] ([None] is Go's [nil]). *)

From Stdlib Require Import Ascii String List Bool Arith Lia.
Import ListNotations.
Open Scope string_scope.
Open Scope list_scope.

(** ** Go values the options handle *)

(** A Go [error].  [errorString] is what [fmt.Errorf] builds from a message;
    [traced] is an error to which [traceError] attached the file and line of
    the call that registered a constructor. *)
Inductive error : Type :=
| errorString (msg : string)
| traced (file : string) (line : nat) (cause : error).

(** The position [runtime.Caller] reports for a call. *)
Record CallSite : Type := { file : string; line : nat }.

(** A Go slice: [None] is the [nil] slice, [Some []] an allocated slice of
    length zero.  The two are told apart by [s == nil] only. *)
Definition slice (A : Type) : Type := option (list A).

Definition isNil {A : Type} (s : slice A) : bool :=
  match s with None => true | Some _ => false end.

Definition elems {A : Type} (s : slice A) : list A :=
  match s with None => [] | Some l => l end.

Definition len {A : Type} (s : slice A) : nat := length (elems s).

(** [append(s, xs...)]: appending nothing returns [s] itself (a [nil] slice
    stays [nil]); appending something to [nil] allocates. *)
Definition sliceAppend {A : Type} (s : slice A) (xs : list A) : slice A :=
  match s, xs with
  | None, [] => None
  | None, _ :: _ => Some xs
  | Some l, _ => Some (l ++ xs)
  end.

(** A nilable Go value (interface or func): [None] is [nil]. *)
Definition isSet {A : Type} (v : option A) : bool :=
  match v with None => false | Some _ => true end.

(** ** Constructor values, as the adapter sees them

    A value passed as [interface{}] to [Security], [Muxer] or [Transport]
    carries its dynamic type.  Only its shape matters here: whether it is
    an instance of a subsystem interface, or a function with given
    parameter and result types. *)

(** The dependency kinds a constructor function may ask for (the lists in
    the doc comments of [Security], [Muxer] and [Transport]). *)
Inductive Dep : Type :=
| DepUpgrader | DepHost | DepNetwork | DepMuxer | DepSecurity | DepProtector
| DepPeerID | DepPrivKey | DepPubKey | DepFilter | DepPeerstore.

(** The subsystem interface a constructor is registered for. *)
Inductive Iface : Type := IfaceSecurity | IfaceMuxer | IfaceTransport.

Definition Iface_eqb (i j : Iface) : bool :=
  match i, j with
  | IfaceSecurity, IfaceSecurity => true
  | IfaceMuxer, IfaceMuxer => true
  | IfaceTransport, IfaceTransport => true
  | _, _ => false
  end.

Inductive GoType : Type :=
| TyDep (d : Dep)                     (* a type of the dependency vocabulary *)
| TyImpl (i : Iface) (name : string)  (* a type implementing interface [i] *)
| TyError                             (* the [error] interface *)
| TyOther (name : string).            (* any other type *)

Inductive GoValue : Type :=
| VInstance (ty : GoType)
| VFunc (name : string) (params results : list GoType).

(** The values the default options register.  Their shapes are those of the
    libraries they come from. *)
Module secio.
Definition ID : string := "/secio/1.0.0".
Definition New : GoValue :=
  VFunc "secio.New" [TyDep DepPrivKey] [TyImpl IfaceSecurity "*secio.Transport"; TyError].
End secio.

Module tcp.
Definition NewTCPTransport : GoValue :=
  VFunc "tcp.NewTCPTransport" [TyDep DepUpgrader] [TyImpl IfaceTransport "*tcp.TcpTransport"].
End tcp.

Module ws.
Definition New : GoValue :=
  VFunc "ws.New" [TyDep DepUpgrader] [TyImpl IfaceTransport "*ws.WebsocketTransport"].
End ws.

Module yamux.
Definition DefaultTransport : GoValue := VInstance (TyImpl IfaceMuxer "*yamux.Transport").
End yamux.

Module mplex.
Definition DefaultTransport : GoValue := VInstance (TyImpl IfaceMuxer "*mplex.Transport").
End mplex.

(** ** External collaborators

    The libraries the options call into and the opaque values they store.
    The options never look inside these values. *)
Class Externals : Type := {
  ma_Multiaddr : Type;
  crypto_PrivKey : Type;
  pstore_Peerstore : Type;
  pnet_Protector : Type;
  metrics_Reporter : Type;
  ifconnmgr_ConnManager : Type;
  config_AddrsFactory : Type;
  config_NATManagerC : Type;
  circuit_RelayOpt : Type;
  net_IPNet : Type;
  filter_Filters : Type;
  (* [multiaddr.NewMultiaddr(s)]: the parsed address and the error *)
  ma_NewMultiaddr : string -> ma_Multiaddr * option error;
  (* the outcome of [crypto.GenerateKeyPairWithReader(crypto.RSA, 2048, rand.Reader)]:
     the private key and the error *)
  crypto_GenerateKeyPairWithReader : option crypto_PrivKey * option error;
  (* [pstore.NewPeerstore()] *)
  pstore_NewPeerstore : pstore_Peerstore;
  (* [bhost.NewNATManager] *)
  bhost_NewNATManager : config_NATManagerC;
  (* [filter.NewFilters()] and [Filters.AddDialFilter] *)
  filter_NewFilters : filter_Filters;
  filter_AddDialFilter : filter_Filters -> net_IPNet -> filter_Filters
}.

(** ** Package [config] *)
Module config.

(** Modelled from the spec: the types [SecC], [MuxC], [TptC], [MsSecC] and
    [MsMuxC] of package [config], which are not among the source files.  An
    adapted constructor is [nil], or the adapter closure around the value it
    accepted; a security or multiplexer entry pairs it with the protocol
    identifier. *)
Definition SecC : Type := option GoValue.
Definition MuxC : Type := option GoValue.
Definition TptC : Type := option GoValue.

Record MsSecC : Type := { SecC_of : SecC; SecID : string }.
Record MsMuxC : Type := { MuxC_of : MuxC; MuxID : string }.

Section WithExternals.
Context {E : Externals}.

(** Modelled from the spec: the struct [Config] of package [config], which
    is not among the source files.  It has one field per subsystem slot of
    the data model, under the names the options use.  A fresh [Config] has
    every field at its zero value. *)
Record Config : Type := {
  PeerKey : option crypto_PrivKey;
  Transports : slice TptC;
  Muxers : slice MsMuxC;
  SecurityTransports : slice MsSecC;
  Insecure : bool;
  Protector : option pnet_Protector;
  Relay : bool;
  RelayOpts : slice circuit_RelayOpt;
  ListenAddrs : slice ma_Multiaddr;
  AddrsFactory : option config_AddrsFactory;
  Filters : option filter_Filters;
  ConnManager : option ifconnmgr_ConnManager;
  NATManager : option config_NATManagerC;
  Peerstore : option pstore_Peerstore;
  Reporter : option metrics_Reporter
}.

Definition zero : Config :=
  {| PeerKey := None; Transports := None; Muxers := None;
     SecurityTransports := None; Insecure := false; Protector := None;
     Relay := false; RelayOpts := None; ListenAddrs := None;
     AddrsFactory := None; Filters := None; ConnManager := None;
     NATManager := None; Peerstore := None; Reporter := None |}.

(** Field assignments [cfg.F = v]. *)
Definition setPeerKey (v : option crypto_PrivKey) (c : Config) : Config :=
  {| PeerKey := v; Transports := Transports c; Muxers := Muxers c;
     SecurityTransports := SecurityTransports c; Insecure := Insecure c;
     Protector := Protector c; Relay := Relay c; RelayOpts := RelayOpts c;
     ListenAddrs := ListenAddrs c; AddrsFactory := AddrsFactory c;
     Filters := Filters c; ConnManager := ConnManager c;
     NATManager := NATManager c; Peerstore := Peerstore c;
     Reporter := Reporter c |}.

Definition setTransports (v : slice TptC) (c : Config) : Config :=
  {| PeerKey := PeerKey c; Transports := v; Muxers := Muxers c;
     SecurityTransports := SecurityTransports c; Insecure := Insecure c;
     Protector := Protector c; Relay := Relay c; RelayOpts := RelayOpts c;
     ListenAddrs := ListenAddrs c; AddrsFactory := AddrsFactory c;
     Filters := Filters c; ConnManager := ConnManager c;
     NATManager := NATManager c; Peerstore := Peerstore c;
     Reporter := Reporter c |}.

Definition setMuxers (v : slice MsMuxC) (c : Config) : Config :=
  {| PeerKey := PeerKey c; Transports := Transports c; Muxers := v;
     SecurityTransports := SecurityTransports c; Insecure := Insecure c;
     Protector := Protector c; Relay := Relay c; RelayOpts := RelayOpts c;
     ListenAddrs := ListenAddrs c; AddrsFactory := AddrsFactory c;
     Filters := Filters c; ConnManager := ConnManager c;
     NATManager := NATManager c; Peerstore := Peerstore c;
     Reporter := Reporter c |}.

Definition setSecurityTransports (v : slice MsSecC) (c : Config) : Config :=
  {| PeerKey := PeerKey c; Transports := Transports c; Muxers := Muxers c;
     SecurityTransports := v; Insecure := Insecure c;
     Protector := Protector c; Relay := Relay c; RelayOpts := RelayOpts c;
     ListenAddrs := ListenAddrs c; AddrsFactory := AddrsFactory c;
     Filters := Filters c; ConnManager := ConnManager c;
     NATManager := NATManager c; Peerstore := Peerstore c;
     Reporter := Reporter c |}.

Definition setInsecure (v : bool) (c : Config) : Config :=
  {| PeerKey := PeerKey c; Transports := Transports c; Muxers := Muxers c;
     SecurityTransports := SecurityTransports c; Insecure := v;
     Protector := Protector c; Relay := Relay c; RelayOpts := RelayOpts c;
     ListenAddrs := ListenAddrs c; AddrsFactory := AddrsFactory c;
     Filters := Filters c; ConnManager := ConnManager c;
     NATManager := NATManager c; Peerstore := Peerstore c;
     Reporter := Reporter c |}.

Definition setProtector (v : option pnet_Protector) (c : Config) : Config :=
  {| PeerKey := PeerKey c; Transports := Transports c; Muxers := Muxers c;
     SecurityTransports := SecurityTransports c; Insecure := Insecure c;
     Protector := v; Relay := Relay c; RelayOpts := RelayOpts c;
     ListenAddrs := ListenAddrs c; AddrsFactory := AddrsFactory c;
     Filters := Filters c; ConnManager := ConnManager c;
     NATManager := NATManager c; Peerstore := Peerstore c;
     Reporter := Reporter c |}.

Definition setRelay (v : bool) (c : Config) : Config :=
  {| PeerKey := PeerKey c; Transports := Transports c; Muxers := Muxers c;
     SecurityTransports := SecurityTransports c; Insecure := Insecure c;
     Protector := Protector c; Relay := v; RelayOpts := RelayOpts c;
     ListenAddrs := ListenAddrs c; AddrsFactory := AddrsFactory c;
     Filters := Filters c; ConnManager := ConnManager c;
     NATManager := NATManager c; Peerstore := Peerstore c;
     Reporter := Reporter c |}.

Definition setRelayOpts (v : slice circuit_RelayOpt) (c : Config) : Config :=
  {| PeerKey := PeerKey c; Transports := Transports c; Muxers := Muxers c;
     SecurityTransports := SecurityTransports c; Insecure := Insecure c;
     Protector := Protector c; Relay := Relay c; RelayOpts := v;
     ListenAddrs := ListenAddrs c; AddrsFactory := AddrsFactory c;
     Filters := Filters c; ConnManager := ConnManager c;
     NATManager := NATManager c; Peerstore := Peerstore c;
     Reporter := Reporter c |}.

Definition setListenAddrs (v : slice ma_Multiaddr) (c : Config) : Config :=
  {| PeerKey := PeerKey c; Transports := Transports c; Muxers := Muxers c;
     SecurityTransports := SecurityTransports c; Insecure := Insecure c;
     Protector := Protector c; Relay := Relay c; RelayOpts := RelayOpts c;
     ListenAddrs := v; AddrsFactory := AddrsFactory c;
     Filters := Filters c; ConnManager := ConnManager c;
     NATManager := NATManager c; Peerstore := Peerstore c;
     Reporter := Reporter c |}.

Definition setAddrsFactory (v : option config_AddrsFactory) (c : Config) : Config :=
  {| PeerKey := PeerKey c; Transports := Transports c; Muxers := Muxers c;
     SecurityTransports := SecurityTransports c; Insecure := Insecure c;
     Protector := Protector c; Relay := Relay c; RelayOpts := RelayOpts c;
     ListenAddrs := ListenAddrs c; AddrsFactory := v;
     Filters := Filters c; ConnManager := ConnManager c;
     NATManager := NATManager c; Peerstore := Peerstore c;
     Reporter := Reporter c |}.

Definition setFilters (v : option filter_Filters) (c : Config) : Config :=
  {| PeerKey := PeerKey c; Transports := Transports c; Muxers := Muxers c;
     SecurityTransports := SecurityTransports c; Insecure := Insecure c;
     Protector := Protector c; Relay := Relay c; RelayOpts := RelayOpts c;
     ListenAddrs := ListenAddrs c; AddrsFactory := AddrsFactory c;
     Filters := v; ConnManager := ConnManager c;
     NATManager := NATManager c; Peerstore := Peerstore c;
     Reporter := Reporter c |}.

Definition setConnManager (v : option ifconnmgr_ConnManager) (c : Config) : Config :=
  {| PeerKey := PeerKey c; Transports := Transports c; Muxers := Muxers c;
     SecurityTransports := SecurityTransports c; Insecure := Insecure c;
     Protector := Protector c; Relay := Relay c; RelayOpts := RelayOpts c;
     ListenAddrs := ListenAddrs c; AddrsFactory := AddrsFactory c;
     Filters := Filters c; ConnManager := v;
     NATManager := NATManager c; Peerstore := Peerstore c;
     Reporter := Reporter c |}.

Definition setNATManager (v : option config_NATManagerC) (c : Config) : Config :=
  {| PeerKey := PeerKey c; Transports := Transports c; Muxers := Muxers c;
     SecurityTransports := SecurityTransports c; Insecure := Insecure c;
     Protector := Protector c; Relay := Relay c; RelayOpts := RelayOpts c;
     ListenAddrs := ListenAddrs c; AddrsFactory := AddrsFactory c;
     Filters := Filters c; ConnManager := ConnManager c;
     NATManager := v; Peerstore := Peerstore c;
     Reporter := Reporter c |}.

Definition setPeerstore (v : option pstore_Peerstore) (c : Config) : Config :=
  {| PeerKey := PeerKey c; Transports := Transports c; Muxers := Muxers c;
     SecurityTransports := SecurityTransports c; Insecure := Insecure c;
     Protector := Protector c; Relay := Relay c; RelayOpts := RelayOpts c;
     ListenAddrs := ListenAddrs c; AddrsFactory := AddrsFactory c;
     Filters := Filters c; ConnManager := ConnManager c;
     NATManager := NATManager c; Peerstore := v;
     Reporter := Reporter c |}.

Definition setReporter (v : option metrics_Reporter) (c : Config) : Config :=
  {| PeerKey := PeerKey c; Transports := Transports c; Muxers := Muxers c;
     SecurityTransports := SecurityTransports c; Insecure := Insecure c;
     Protector := Protector c; Relay := Relay c; RelayOpts := RelayOpts c;
     ListenAddrs := ListenAddrs c; AddrsFactory := AddrsFactory c;
     Filters := Filters c; ConnManager := ConnManager c;
     NATManager := NATManager c; Peerstore := Peerstore c;
     Reporter := v |}.

(** Modelled from the spec: [type Option func(cfg *Config) error], which is
    not among the source files.  An Option mutates the [Config] and can fail:
    here it returns the [Config] after the call and the error. *)
Definition Option : Type := Config -> Config * option error.

(** Modelled from the spec: the method [Config.Apply], which is not among the source
    files.  Options apply in the order given; the first error aborts the
    remaining sequence and is returned with no further Options applied. *)
Fixpoint Apply (opts : list Option) (cfg : Config) : Config * option error :=
  match opts with
  | [] => (cfg, None)
  | opt :: rest =>
      match opt cfg with
      | (cfg', Some err) => (cfg', Some err)
      | (cfg', None) => Apply rest cfg'
      end
  end.

End WithExternals.

(** Modelled from the spec: the constructor adapter ([SecurityConstructor],
    [MuxerConstructor], [TransportConstructor]), which is not among the
    source files.  A supplied value is accepted when it is already a usable
    instance, or a function whose declared parameter types are all drawn
    from the known dependency set and whose return type matches the
    expected subsystem interface (a Go constructor may return an [error]
    beside it); if neither, the adapter fails with a type-mismatch error. *)
Definition inVocabulary (t : GoType) : bool :=
  match t with TyDep _ => true | _ => false end.

Definition implements (i : Iface) (t : GoType) : bool :=
  match t with TyImpl j _ => Iface_eqb i j | _ => false end.

Definition returnsIface (i : Iface) (results : list GoType) : bool :=
  match results with
  | [t] => implements i t
  | [t; TyError] => implements i t
  | _ => false
  end.

Definition wellShaped (i : Iface) (v : GoValue) : bool :=
  match v with
  | VInstance ty => implements i ty
  | VFunc _ params results => forallb inVocabulary params && returnsIface i results
  end.

Definition shapeMismatch : error :=
  errorString "constructor has an unexpected type".

Definition makeConstructor (i : Iface) (v : GoValue) : option GoValue * option error :=
  if wellShaped i v then (Some v, None) else (None, Some shapeMismatch).

Definition SecurityConstructor (tpt : GoValue) : SecC * option error :=
  makeConstructor IfaceSecurity tpt.

Definition MuxerConstructor (tpt : GoValue) : MuxC * option error :=
  makeConstructor IfaceMuxer tpt.

Definition TransportConstructor (tpt : GoValue) : TptC * option error :=
  makeConstructor IfaceTransport tpt.

End config.

(** ** Package [p2p]: [options.go] *)

(** [type Config = config.Config] and [type Option = config.Option]. *)
Abbreviation Config := config.Config.
Abbreviation Option := config.Option.

Section Options.
Context {E : Externals}.

(** Modelled from the spec: [ChainOptions], which is not among the source
    files.  It composes a sequence of Options into a single Option with the
    same ordered, short-circuiting semantics as applying them one by one. *)
Fixpoint ChainOptions (opts : list Option) (cfg : Config) : Config * option error :=
  match opts with
  | [] => (cfg, None)
  | opt :: rest =>
      match opt cfg with
      | (cfg', Some err) => (cfg', Some err)
      | (cfg', None) => ChainOptions rest cfg'
      end
  end.

(** Modelled from the spec: [traceError], which is not among the source
    files.  An error raised while an Option is constructed is tagged with
    the location of the registering call; [nil] stays [nil].  The Go code
    passes the number of stack frames to skip; here the Option constructor
    receives the [CallSite] of its caller, which is what [runtime.Caller]
    finds at that depth. *)
Definition traceError (err : option error) (caller : CallSite) : option error :=
  match err with
  | None => None
  | Some e => Some (traced (file caller) (line caller) e)
  end.

(** The body of the loop of [ListenAddrStrings]. *)
Fixpoint listenAddrStringsFrom (s : list string) (cfg : Config) : Config * option error :=
  match s with
  | [] => (cfg, None)
  | addrstr :: rest =>
      let (a, err) := ma_NewMultiaddr addrstr in
      match err with
      | Some e => (cfg, Some e)
      | None =>
          listenAddrStringsFrom rest
            (config.setListenAddrs (sliceAppend (config.ListenAddrs cfg) [a]) cfg)
      end
  end.

Definition ListenAddrStrings (s : list string) : Option :=
  fun cfg => listenAddrStringsFrom s cfg.

Definition ListenAddrs (addrs : list ma_Multiaddr) : Option :=
  fun cfg =>
    (config.setListenAddrs (sliceAppend (config.ListenAddrs cfg) addrs) cfg, None).

Definition errInsecure : error :=
  errorString "cannot use security transports with an insecure dms3-p2p configuration".

Definition Security (caller : CallSite) (name : string) (tpt : GoValue) : Option :=
  let (stpt, err) := config.SecurityConstructor tpt in
  let err := traceError err caller in
  fun cfg =>
    match err with
    | Some e => (cfg, Some e)
    | None =>
        if config.Insecure cfg then (cfg, Some errInsecure)
        else
          (config.setSecurityTransports
             (sliceAppend (config.SecurityTransports cfg)
                [{| config.SecC_of := stpt; config.SecID := name |}]) cfg,
           None)
    end.

Definition NoSecurity : Option :=
  fun cfg =>
    if (0 <? len (config.SecurityTransports cfg))%nat then (cfg, Some errInsecure)
    else (config.setInsecure true cfg, None).

Definition Muxer (caller : CallSite) (name : string) (tpt : GoValue) : Option :=
  let (mtpt, err) := config.MuxerConstructor tpt in
  let err := traceError err caller in
  fun cfg =>
    match err with
    | Some e => (cfg, Some e)
    | None =>
        (config.setMuxers
           (sliceAppend (config.Muxers cfg)
              [{| config.MuxC_of := mtpt; config.MuxID := name |}]) cfg,
         None)
    end.

Definition Transport (caller : CallSite) (tpt : GoValue) : Option :=
  let (tptc, err) := config.TransportConstructor tpt in
  let err := traceError err caller in
  fun cfg =>
    match err with
    | Some e => (cfg, Some e)
    | None =>
        (config.setTransports (sliceAppend (config.Transports cfg) [tptc]) cfg, None)
    end.

Definition Peerstore (ps : option pstore_Peerstore) : Option :=
  fun cfg =>
    if isSet (config.Peerstore cfg)
    then (cfg, Some (errorString "cannot specify multiple peerstore options"))
    else (config.setPeerstore ps cfg, None).

Definition PrivateNetwork (prot : option pnet_Protector) : Option :=
  fun cfg =>
    if isSet (config.Protector cfg)
    then (cfg, Some (errorString "cannot specify multiple private network options"))
    else (config.setProtector prot cfg, None).

Definition BandwidthReporter (rep : option metrics_Reporter) : Option :=
  fun cfg =>
    if isSet (config.Reporter cfg)
    then (cfg, Some (errorString "cannot specify multiple bandwidth reporter options"))
    else (config.setReporter rep cfg, None).

Definition Identity (sk : option crypto_PrivKey) : Option :=
  fun cfg =>
    if isSet (config.PeerKey cfg)
    then (cfg, Some (errorString "cannot specify multiple identities"))
    else (config.setPeerKey sk cfg, None).

Definition ConnectionManager (connman : option ifconnmgr_ConnManager) : Option :=
  fun cfg =>
    if isSet (config.ConnManager cfg)
    then (cfg, Some (errorString "cannot specify multiple connection managers"))
    else (config.setConnManager connman cfg, None).

Definition AddrsFactory (factory : option config_AddrsFactory) : Option :=
  fun cfg =>
    if isSet (config.AddrsFactory cfg)
    then (cfg, Some (errorString "cannot specify multiple address factories"))
    else (config.setAddrsFactory factory cfg, None).

Definition EnableRelay (options : slice circuit_RelayOpt) : Option :=
  fun cfg => (config.setRelayOpts options (config.setRelay true cfg), None).

Definition FilterAddresses (addrs : list net_IPNet) : Option :=
  fun cfg =>
    let filters :=
      match config.Filters cfg with
      | None => filter_NewFilters
      | Some f => f
      end in
    (config.setFilters (Some (fold_left filter_AddDialFilter addrs filters)) cfg, None).

Definition NATManager (nm : option config_NATManagerC) : Option :=
  fun cfg =>
    if isSet (config.NATManager cfg)
    then (cfg, Some (errorString "cannot specify multiple NATManagers"))
    else (config.setNATManager nm cfg, None).

Definition NATPortMap : Option := NATManager (Some bhost_NewNATManager).

Definition NoListenAddrs : Option :=
  fun cfg => (config.setListenAddrs (Some []) cfg, None).

Definition NoTransports : Option :=
  fun cfg => (config.setTransports (Some []) cfg, None).

(** ** Package [p2p]: [defaults.go] *)

Definition DefaultSecurity : Option :=
  Security {| file := "defaults.go"; line := 22 |} secio.ID secio.New.

Definition DefaultMuxers : Option :=
  ChainOptions
    [ Muxer {| file := "defaults.go"; line := 29 |} "/yamux/1.0.0" yamux.DefaultTransport;
      Muxer {| file := "defaults.go"; line := 30 |} "/mplex/6.7.0" mplex.DefaultTransport ].

Definition DefaultTransports : Option :=
  ChainOptions
    [ Transport {| file := "defaults.go"; line := 38 |} tcp.NewTCPTransport;
      Transport {| file := "defaults.go"; line := 39 |} ws.New ].

Definition DefaultPeerstore : Option :=
  fun cfg => config.Apply [Peerstore (Some pstore_NewPeerstore)] cfg.

Definition RandomIdentity : Option :=
  fun cfg =>
    let (priv, err) := crypto_GenerateKeyPairWithReader in
    match err with
    | Some e => (cfg, Some e)
    | None => config.Apply [Identity priv] cfg
    end.

Definition DefaultListenAddrs : Option :=
  fun cfg =>
    let (defaultIP4ListenAddr, err) := ma_NewMultiaddr "/ip4/0.0.0.0/tcp/0" in
    match err with
    | Some e => (cfg, Some e)
    | None =>
        let (defaultIP6ListenAddr, err) := ma_NewMultiaddr "/ip6/::/tcp/0" in
        match err with
        | Some e => (cfg, Some e)
        | None =>
            config.Apply [ListenAddrs [defaultIP4ListenAddr; defaultIP6ListenAddr]] cfg
        end
    end.

(** An entry of the table of defaults. *)
Record defaultEntry : Type := { fallback : Config -> bool; opt : Option }.

Definition defaults : list defaultEntry :=
  [ {| fallback := fun cfg => isNil (config.Transports cfg) && isNil (config.ListenAddrs cfg);
       opt := DefaultListenAddrs |};
    {| fallback := fun cfg => isNil (config.Transports cfg);
       opt := DefaultTransports |};
    {| fallback := fun cfg => isNil (config.Muxers cfg);
       opt := DefaultMuxers |};
    {| fallback := fun cfg => negb (config.Insecure cfg) && isNil (config.SecurityTransports cfg);
       opt := DefaultSecurity |};
    {| fallback := fun cfg => negb (isSet (config.PeerKey cfg));
       opt := RandomIdentity |};
    {| fallback := fun cfg => negb (isSet (config.Peerstore cfg));
       opt := DefaultPeerstore |} ].

(** The loop of [Defaults] over a table. *)
Fixpoint applyAll (table : list defaultEntry) (cfg : Config) : Config * option error :=
  match table with
  | [] => (cfg, None)
  | def :: rest =>
      match config.Apply [opt def] cfg with
      | (cfg', Some err) => (cfg', Some err)
      | (cfg', None) => applyAll rest cfg'
      end
  end.

Definition Defaults : Option := fun cfg => applyAll defaults cfg.

(** The loop of [FallbackDefaults] over a table. *)
Fixpoint applyFallback (table : list defaultEntry) (cfg : Config) : Config * option error :=
  match table with
  | [] => (cfg, None)
  | def :: rest =>
      if negb (fallback def cfg) then applyFallback rest cfg
      else
        match config.Apply [opt def] cfg with
        | (cfg', Some err) => (cfg', Some err)
        | (cfg', None) => applyFallback rest cfg'
        end
  end.

Definition FallbackDefaults : Option := fun cfg => applyFallback defaults cfg.

End Options.

(** ** The options of the package, as data

    Quantifying over "every Option this package defines" needs them as
    values of a datatype; [run] maps each to the function above. *)
Section Catalogue.
Context {E : Externals}.

Inductive Opt : Type :=
| OListenAddrStrings (s : list string)
| OListenAddrs (addrs : list ma_Multiaddr)
| OSecurity (caller : CallSite) (name : string) (tpt : GoValue)
| ONoSecurity
| OMuxer (caller : CallSite) (name : string) (tpt : GoValue)
| OTransport (caller : CallSite) (tpt : GoValue)
| OPeerstore (ps : option pstore_Peerstore)
| OPrivateNetwork (prot : option pnet_Protector)
| OBandwidthReporter (rep : option metrics_Reporter)
| OIdentity (sk : option crypto_PrivKey)
| OConnectionManager (connman : option ifconnmgr_ConnManager)
| OAddrsFactory (factory : option config_AddrsFactory)
| OEnableRelay (options : slice circuit_RelayOpt)
| OFilterAddresses (addrs : list net_IPNet)
| ONATPortMap
| ONATManager (nm : option config_NATManagerC)
| ONoListenAddrs
| ONoTransports
| ODefaultSecurity
| ODefaultMuxers
| ODefaultTransports
| ODefaultPeerstore
| ORandomIdentity
| ODefaultListenAddrs
| ODefaults
| OFallbackDefaults.

Definition run (o : Opt) : Option :=
  match o with
  | OListenAddrStrings s => ListenAddrStrings s
  | OListenAddrs addrs => ListenAddrs addrs
  | OSecurity caller name tpt => Security caller name tpt
  | ONoSecurity => NoSecurity
  | OMuxer caller name tpt => Muxer caller name tpt
  | OTransport caller tpt => Transport caller tpt
  | OPeerstore ps => Peerstore ps
  | OPrivateNetwork prot => PrivateNetwork prot
  | OBandwidthReporter rep => BandwidthReporter rep
  | OIdentity sk => Identity sk
  | OConnectionManager connman => ConnectionManager connman
  | OAddrsFactory factory => AddrsFactory factory
  | OEnableRelay options => EnableRelay options
  | OFilterAddresses addrs => FilterAddresses addrs
  | ONATPortMap => NATPortMap
  | ONATManager nm => NATManager nm
  | ONoListenAddrs => NoListenAddrs
  | ONoTransports => NoTransports
  | ODefaultSecurity => DefaultSecurity
  | ODefaultMuxers => DefaultMuxers
  | ODefaultTransports => DefaultTransports
  | ODefaultPeerstore => DefaultPeerstore
  | ORandomIdentity => RandomIdentity
  | ODefaultListenAddrs => DefaultListenAddrs
  | ODefaults => Defaults
  | OFallbackDefaults => FallbackDefaults
  end.

(** A [Config] a caller can hold: the zero [Config] after any number of
    Option applications, failed ones included. *)
Inductive reachable : Config -> Prop :=
| reach_zero : reachable config.zero
| reach_step (o : Opt) (cfg : Config) : reachable cfg -> reachable (fst (run o cfg)).

(** The invariant of the two security settings. *)
Definition exclusive (cfg : Config) : bool :=
  negb (config.Insecure cfg && (0 <? len (config.SecurityTransports cfg))%nat).

(** The single-value slots and the option constructors that fill them. *)
Inductive Slot : Type :=
| SlotIdentity | SlotPeerstore | SlotProtector | SlotReporter
| SlotConnManager | SlotAddrsFactory | SlotNATManager.

Definition Slot_eq_dec (a b : Slot) : {a = b} + {a <> b}.
Proof. decide equality. Defined.

Definition slotOf (o : Opt) : option Slot :=
  match o with
  | OIdentity _ => Some SlotIdentity
  | OPeerstore _ => Some SlotPeerstore
  | OPrivateNetwork _ => Some SlotProtector
  | OBandwidthReporter _ => Some SlotReporter
  | OConnectionManager _ => Some SlotConnManager
  | OAddrsFactory _ => Some SlotAddrsFactory
  | ONATManager _ => Some SlotNATManager
  | ONATPortMap => Some SlotNATManager
  | _ => None
  end.

Definition slotIsSet (s : Slot) (cfg : Config) : bool :=
  match s with
  | SlotIdentity => isSet (config.PeerKey cfg)
  | SlotPeerstore => isSet (config.Peerstore cfg)
  | SlotProtector => isSet (config.Protector cfg)
  | SlotReporter => isSet (config.Reporter cfg)
  | SlotConnManager => isSet (config.ConnManager cfg)
  | SlotAddrsFactory => isSet (config.AddrsFactory cfg)
  | SlotNATManager => isSet (config.NATManager cfg)
  end.

(** [slotKept s cfg cfg']: slot [s] holds in [cfg'] the value it holds in [cfg]. *)
Definition slotKept (s : Slot) (cfg cfg' : Config) : Prop :=
  match s with
  | SlotIdentity => config.PeerKey cfg' = config.PeerKey cfg
  | SlotPeerstore => config.Peerstore cfg' = config.Peerstore cfg
  | SlotProtector => config.Protector cfg' = config.Protector cfg
  | SlotReporter => config.Reporter cfg' = config.Reporter cfg
  | SlotConnManager => config.ConnManager cfg' = config.ConnManager cfg
  | SlotAddrsFactory => config.AddrsFactory cfg' = config.AddrsFactory cfg
  | SlotNATManager => config.NATManager cfg' = config.NATManager cfg
  end.

(** The text of a cardinality error: ["cannot specify multiple X"]. *)
Definition isCardinalityError (e : error) : bool :=
  match e with
  | errorString msg => String.prefix "cannot specify multiple " msg
  | traced _ _ _ => false
  end.

(** [taggedWith caller e]: [e] carries the location [caller]. *)
Definition taggedWith (caller : CallSite) (e : error) : bool :=
  match e with
  | traced f l _ => String.eqb f (file caller) && Nat.eqb l (line caller)
  | errorString _ => false
  end.

(** The options that check everything they can fail on before their first
    assignment to the [Config]: all but [ListenAddrStrings], which parses
    and appends address by address, and the two passes over the table of
    defaults, which apply entry after entry. *)
Definition validatesFirst (o : Opt) : bool :=
  match o with
  | OListenAddrStrings _ | ODefaults | OFallbackDefaults => false
  | _ => true
  end.

(** The two passes over the table of defaults. *)
Definition isPass (o : Opt) : bool :=
  match o with ODefaults | OFallbackDefaults => true | _ => false end.

End Catalogue.

(** ** What each Option is meant to do

    A second description of the options, written from the design and not
    from the code: single-value slots are set; listen addresses, transports,
    security and multiplexer entries are appended (an entry pairs the
    protocol identifier with the supplied constructor); the toggles replace
    state; the relay Option sets the flag and stores its arguments; the
    filter set is created on first use and then extended.  The two passes
    over the defaults do this for every default (strict) or for every
    default whose slot family is still unaddressed (fallback), in the
    order of the table. *)
Section Intended.
Context {E : Externals}.

Definition parsed (s : string) : ma_Multiaddr := fst (ma_NewMultiaddr s).

Definition intendedStep (o : Opt) (cfg : Config) : Config :=
  match o with
  | OListenAddrStrings s =>
      config.setListenAddrs (sliceAppend (config.ListenAddrs cfg) (map parsed s)) cfg
  | OListenAddrs addrs =>
      config.setListenAddrs (sliceAppend (config.ListenAddrs cfg) addrs) cfg
  | OSecurity _ name tpt =>
      config.setSecurityTransports
        (sliceAppend (config.SecurityTransports cfg)
           [{| config.SecC_of := Some tpt; config.SecID := name |}]) cfg
  | ONoSecurity => config.setInsecure true cfg
  | OMuxer _ name tpt =>
      config.setMuxers
        (sliceAppend (config.Muxers cfg)
           [{| config.MuxC_of := Some tpt; config.MuxID := name |}]) cfg
  | OTransport _ tpt =>
      config.setTransports (sliceAppend (config.Transports cfg) [Some tpt]) cfg
  | OPeerstore ps => config.setPeerstore ps cfg
  | OPrivateNetwork prot => config.setProtector prot cfg
  | OBandwidthReporter rep => config.setReporter rep cfg
  | OIdentity sk => config.setPeerKey sk cfg
  | OConnectionManager connman => config.setConnManager connman cfg
  | OAddrsFactory factory => config.setAddrsFactory factory cfg
  | OEnableRelay options => config.setRelayOpts options (config.setRelay true cfg)
  | OFilterAddresses addrs =>
      config.setFilters
        (Some (fold_left filter_AddDialFilter addrs
                 (match config.Filters cfg with Some f => f | None => filter_NewFilters end)))
        cfg
  | ONATPortMap => config.setNATManager (Some bhost_NewNATManager) cfg
  | ONATManager nm => config.setNATManager nm cfg
  | ONoListenAddrs => config.setListenAddrs (Some []) cfg
  | ONoTransports => config.setTransports (Some []) cfg
  | ODefaultSecurity =>
      config.setSecurityTransports
        (sliceAppend (config.SecurityTransports cfg)
           [{| config.SecC_of := Some secio.New; config.SecID := "/secio/1.0.0" |}]) cfg
  | ODefaultMuxers =>
      config.setMuxers
        (sliceAppend (config.Muxers cfg)
           [{| config.MuxC_of := Some yamux.DefaultTransport; config.MuxID := "/yamux/1.0.0" |};
            {| config.MuxC_of := Some mplex.DefaultTransport; config.MuxID := "/mplex/6.7.0" |}])
        cfg
  | ODefaultTransports =>
      config.setTransports
        (sliceAppend (config.Transports cfg) [Some tcp.NewTCPTransport; Some ws.New]) cfg
  | ODefaultPeerstore => config.setPeerstore (Some pstore_NewPeerstore) cfg
  | ORandomIdentity => config.setPeerKey (fst crypto_GenerateKeyPairWithReader) cfg
  | ODefaultListenAddrs =>
      config.setListenAddrs
        (sliceAppend (config.ListenAddrs cfg)
           [parsed "/ip4/0.0.0.0/tcp/0"; parsed "/ip6/::/tcp/0"]) cfg
  | ODefaults | OFallbackDefaults => cfg  (* the passes: see [intended] *)
  end.

(** The defaults, in the order of the table, each with the condition under
    which the fallback pass injects it. *)
Definition unaddressed (o : Opt) (cfg : Config) : bool :=
  match o with
  | ODefaultListenAddrs => isNil (config.ListenAddrs cfg) && isNil (config.Transports cfg)
  | ODefaultTransports => isNil (config.Transports cfg)
  | ODefaultMuxers => isNil (config.Muxers cfg)
  | ODefaultSecurity => negb (config.Insecure cfg) && isNil (config.SecurityTransports cfg)
  | ORandomIdentity => negb (isSet (config.PeerKey cfg))
  | ODefaultPeerstore => negb (isSet (config.Peerstore cfg))
  | _ => false
  end.

Definition defaultOpts : list Opt :=
  [ODefaultListenAddrs; ODefaultTransports; ODefaultMuxers;
   ODefaultSecurity; ORandomIdentity; ODefaultPeerstore].

Definition intended (o : Opt) (cfg : Config) : Config :=
  match o with
  | ODefaults => fold_left (fun c d => intendedStep d c) defaultOpts cfg
  | OFallbackDefaults =>
      fold_left (fun c d => if unaddressed d c then intendedStep d c else c) defaultOpts cfg
  | _ => intendedStep o cfg
  end.

End Intended.

(** ** The fallback pass, as the design describes it

    A second description of the pass over a table of defaults, written
    from the design and not from the loop: the entries are taken in table
    order; an entry whose predicate does not hold of the current [Config]
    is passed over; an entry whose predicate holds has its Option applied
    to the current [Config]; the first error ends the pass and is its
    result; after the last entry the pass ends without error. *)
Section PassDescribed.
Context {E : Externals}.

Inductive SequentialPass : list defaultEntry -> Config -> Config * option error -> Prop :=
| pass_end (cfg : Config) :
    SequentialPass [] cfg (cfg, None)
| pass_skip (d : defaultEntry) (rest : list defaultEntry) (cfg : Config)
    (r : Config * option error) :
    fallback d cfg = false ->
    SequentialPass rest cfg r ->
    SequentialPass (d :: rest) cfg r
| pass_error (d : defaultEntry) (rest : list defaultEntry) (cfg cfg' : Config)
    (err : error) :
    fallback d cfg = true ->
    opt d cfg = (cfg', Some err) ->
    SequentialPass (d :: rest) cfg (cfg', Some err)
| pass_apply (d : defaultEntry) (rest : list defaultEntry) (cfg cfg' : Config)
    (r : Config * option error) :
    fallback d cfg = true ->
    opt d cfg = (cfg', None) ->
    SequentialPass rest cfg' r ->
    SequentialPass (d :: rest) cfg r.

(** The other reading, which the loop does not follow: every predicate is
    evaluated on the [Config] as it was when the pass started. *)
Fixpoint applyFallbackSnapshot (start : Config) (table : list defaultEntry) (cfg : Config)
  : Config * option error :=
  match table with
  | [] => (cfg, None)
  | def :: rest =>
      if negb (fallback def start) then applyFallbackSnapshot start rest cfg
      else
        match opt def cfg with
        | (cfg', Some err) => (cfg', Some err)
        | (cfg', None) => applyFallbackSnapshot start rest cfg'
        end
  end.

(** A table on which the two readings differ: its first entry fills the
    slot that the predicate of its second entry reads. *)
Definition clearThenDefaultTransports : list defaultEntry :=
  [ {| fallback := fun cfg => isNil (config.Transports cfg); opt := NoTransports |};
    {| fallback := fun cfg => isNil (config.Transports cfg); opt := DefaultTransports |} ].

End PassDescribed.

(** ** A concrete set of collaborators

    Used to run the options on explicit inputs.  Addresses are kept as their
    text; the parser accepts exactly the strings that begin with a slash
    (the first check of the multiaddr parser), keys and the other opaque
    values are numbers. *)
Definition sampleNewMultiaddr (s : string) : string * option error :=
  match s with
  | String "/"%char _ => (s, None)
  | _ => (EmptyString, Some (errorString "invalid multiaddr, must begin with /"))
  end.

Definition sampleExternals : Externals :=
  {| ma_Multiaddr := string;
     crypto_PrivKey := nat;
     pstore_Peerstore := nat;
     pnet_Protector := nat;
     metrics_Reporter := nat;
     ifconnmgr_ConnManager := nat;
     config_AddrsFactory := nat;
     config_NATManagerC := nat;
     circuit_RelayOpt := nat;
     net_IPNet := string;
     filter_Filters := list string;
     ma_NewMultiaddr := sampleNewMultiaddr;
     crypto_GenerateKeyPairWithReader := (Some 2048, None);
     pstore_NewPeerstore := 1;
     bhost_NewNATManager := 1;
     filter_NewFilters := [];
     filter_AddDialFilter := fun f a => f ++ [a] |}.

(** The same collaborators with a key generator that fails. *)
Definition sampleExternalsNoEntropy : Externals :=
  {| ma_Multiaddr := string;
     crypto_PrivKey := nat;
     pstore_Peerstore := nat;
     pnet_Protector := nat;
     metrics_Reporter := nat;
     ifconnmgr_ConnManager := nat;
     config_AddrsFactory := nat;
     config_NATManagerC := nat;
     circuit_RelayOpt := nat;
     net_IPNet := string;
     filter_Filters := list string;
     ma_NewMultiaddr := sampleNewMultiaddr;
     crypto_GenerateKeyPairWithReader := (None, Some (errorString "unexpected EOF"));
     pstore_NewPeerstore := 1;
     bhost_NewNATManager := 1;
     filter_NewFilters := [];
     filter_AddDialFilter := fun f a => f ++ [a] |}.

(** The call sites of the tests in [p2p_test.go]. *)
Definition testBadTransportSite : CallSite := {| file := "p2p_test.go"; line := 26 |}.
Definition testUserTransportSite : CallSite := {| file := "p2p_test.go"; line := 101 |}.

(** [func() {}], the value [TestBadTransportConstructor] registers. *)
Definition emptyFunc : GoValue := VFunc "func()" [] [].

(** The [Config]s of a few short option sequences, each from the zero
    [Config], with the concrete collaborators. *)
Definition userTransportCfg : @config.Config sampleExternals :=
  fst (@Transport sampleExternals testUserTransportSite tcp.NewTCPTransport config.zero).

Definition identityCfg : @config.Config sampleExternals :=
  fst (@Identity sampleExternals (Some 7) config.zero).

Definition secureCfg : @config.Config sampleExternals :=
  fst (@DefaultSecurity sampleExternals config.zero).

Definition insecureCfg : @config.Config sampleExternals :=
  fst (@NoSecurity sampleExternals config.zero).

(** * Properties *)

(** ** Slices *)

Lemma sliceAppend_nothing {A : Type} (s : slice A) : sliceAppend s [] = s.
Proof.
  destruct s as [l|]; simpl; [now rewrite app_nil_r | reflexivity].
Qed.

Lemma sliceAppend_something {A : Type} (s : slice A) (x : A) (xs : list A) :
  sliceAppend s (x :: xs) = Some (elems s ++ x :: xs).
Proof. destruct s; reflexivity. Qed.

Lemma sliceAppend_twice {A : Type} (s : slice A) (xs ys : list A) :
  sliceAppend (sliceAppend s xs) ys = sliceAppend s (xs ++ ys).
Proof.
  destruct s as [l|]; simpl.
  - now rewrite app_assoc.
  - destruct xs; simpl; [destruct ys; reflexivity | reflexivity].
Qed.

Lemma len_nil_slice {A : Type} (s : slice A) : isNil s = true -> len s = 0.
Proof. destruct s; [discriminate | reflexivity]. Qed.

(** ** Sequencing *)
Section Sequencing.
Context {E : Externals}.

Lemma Apply_one (o : Option) (cfg : Config) : config.Apply [o] cfg = o cfg.
Proof. simpl. destruct (o cfg) as [c [e|]]; reflexivity. Qed.

Lemma Apply_app (xs ys : list Option) (cfg : Config) :
  config.Apply (xs ++ ys) cfg =
  match config.Apply xs cfg with
  | (cfg', Some err) => (cfg', Some err)
  | (cfg', None) => config.Apply ys cfg'
  end.
Proof.
  revert cfg; induction xs as [|o xs IH]; intros cfg; simpl.
  - destruct (config.Apply ys cfg) as [c [e|]]; reflexivity.
  - destruct (o cfg) as [c [e|]]; [reflexivity | apply IH].
Qed.

Lemma ChainOptions_Apply (opts : list Option) (cfg : Config) :
  ChainOptions opts cfg = config.Apply opts cfg.
Proof.
  revert cfg; induction opts as [|o opts IH]; intros cfg; simpl; [reflexivity|].
  destruct (o cfg) as [c [e|]]; [reflexivity | apply IH].
Qed.

(** The fallback pass over a table split in two: the second part runs on the
    [Config] the first part left, and only when the first part raised no
    error. *)
Lemma applyFallback_app (t1 t2 : list defaultEntry) (cfg : Config) :
  applyFallback (t1 ++ t2) cfg =
  match applyFallback t1 cfg with
  | (cfg', Some err) => (cfg', Some err)
  | (cfg', None) => applyFallback t2 cfg'
  end.
Proof.
  revert cfg; induction t1 as [|d t1 IH]; intros cfg; simpl.
  - destruct (applyFallback t2 cfg) as [c [e|]]; reflexivity.
  - destruct (fallback d cfg); simpl; [|apply IH].
    destruct (opt d cfg) as [c [e|]]; [reflexivity | apply IH].
Qed.

Lemma applyFallback_one (d : defaultEntry) (cfg : Config) :
  applyFallback [d] cfg = if fallback d cfg then opt d cfg else (cfg, None).
Proof.
  simpl. destruct (fallback d cfg); simpl; [|reflexivity].
  destruct (opt d cfg) as [c [e|]]; reflexivity.
Qed.

(** A property of the [Config] that every entry keeps, when its predicate
    lets it run, is kept by the whole fallback pass. *)
Lemma applyFallback_invariant (P : Config -> Prop) (table : list defaultEntry) :
  Forall (fun d => forall c, P c -> fallback d c = true -> P (fst (opt d c))) table ->
  forall cfg, P cfg -> P (fst (applyFallback table cfg)).
Proof.
  induction 1 as [|d table Hd _ IH]; intros cfg HP; simpl; [exact HP|].
  destruct (fallback d cfg) eqn:Hf; simpl; [|now apply IH].
  specialize (Hd cfg HP Hf).
  destruct (opt d cfg) as [c [e|]]; simpl in *; [exact Hd | now apply IH].
Qed.

Lemma applyAll_invariant (P : Config -> Prop) (table : list defaultEntry) :
  Forall (fun d => forall c, P c -> P (fst (opt d c))) table ->
  forall cfg, P cfg -> P (fst (applyAll table cfg)).
Proof.
  induction 1 as [|d table Hd _ IH]; intros cfg HP; simpl; [exact HP|].
  specialize (Hd cfg HP).
  destruct (opt d cfg) as [c [e|]]; simpl in *; [exact Hd | now apply IH].
Qed.

(** ** The defaults, one by one *)

Lemma DefaultTransports_eq (cfg : Config) :
  DefaultTransports cfg = (intendedStep ODefaultTransports cfg, None).
Proof.
  unfold DefaultTransports; cbn.
  destruct (config.Transports cfg); cbn; rewrite <- ?app_assoc; reflexivity.
Qed.

Lemma DefaultMuxers_eq (cfg : Config) :
  DefaultMuxers cfg = (intendedStep ODefaultMuxers cfg, None).
Proof.
  unfold DefaultMuxers; cbn.
  destruct (config.Muxers cfg); cbn; rewrite <- ?app_assoc; reflexivity.
Qed.

Lemma DefaultSecurity_eq (cfg : Config) :
  DefaultSecurity cfg =
  if config.Insecure cfg then (cfg, Some errInsecure)
  else (intendedStep ODefaultSecurity cfg, None).
Proof. reflexivity. Qed.

Lemma DefaultPeerstore_eq (cfg : Config) :
  DefaultPeerstore cfg = Peerstore (Some pstore_NewPeerstore) cfg.
Proof. unfold DefaultPeerstore. apply Apply_one. Qed.

Lemma RandomIdentity_eq (cfg : Config) :
  RandomIdentity cfg =
  match snd crypto_GenerateKeyPairWithReader with
  | Some e => (cfg, Some e)
  | None => Identity (fst crypto_GenerateKeyPairWithReader) cfg
  end.
Proof.
  unfold RandomIdentity.
  destruct crypto_GenerateKeyPairWithReader as [priv [e|]]; simpl; [reflexivity|].
  destruct (Identity priv cfg) as [c [e|]]; reflexivity.
Qed.

Lemma DefaultListenAddrs_eq (cfg : Config) :
  DefaultListenAddrs cfg =
  match snd (ma_NewMultiaddr "/ip4/0.0.0.0/tcp/0"), snd (ma_NewMultiaddr "/ip6/::/tcp/0") with
  | Some e, _ => (cfg, Some e)
  | None, Some e => (cfg, Some e)
  | None, None => (intendedStep ODefaultListenAddrs cfg, None)
  end.
Proof.
  unfold DefaultListenAddrs, intendedStep, parsed.
  destruct (ma_NewMultiaddr "/ip4/0.0.0.0/tcp/0") as [a4 [e|]]; simpl; [reflexivity|].
  destruct (ma_NewMultiaddr "/ip6/::/tcp/0") as [a6 [e|]]; reflexivity.
Qed.

End Sequencing.

(** ** Proof steps shared by the properties below *)

Ltac split_table :=
  unfold defaults; repeat (apply Forall_cons || apply Forall_nil);
  cbn [fallback opt]; intros.

Ltac break_match :=
  match goal with
  | |- context [match ?x with _ => _ end] => destruct x eqn:?
  end.

Ltac run_default :=
  rewrite ?DefaultTransports_eq, ?DefaultMuxers_eq, ?DefaultSecurity_eq,
    ?DefaultPeerstore_eq, ?RandomIdentity_eq, ?DefaultListenAddrs_eq;
  unfold Peerstore, Identity;
  repeat break_match; cbn in *.

(** ** Listen addresses and transports under the fallback pass *)
Section FallbackListenTransports.
Context {E : Externals}.

(** The pass, one entry at a time. *)
Lemma FallbackDefaults_first (cfg : Config) :
  FallbackDefaults cfg =
  match (if isNil (config.Transports cfg) && isNil (config.ListenAddrs cfg)
         then DefaultListenAddrs cfg else (cfg, None)) with
  | (c, Some err) => (c, Some err)
  | (c, None) => applyFallback (skipn 1 defaults) c
  end.
Proof.
  unfold FallbackDefaults.
  change defaults with (firstn 1 defaults ++ skipn 1 defaults) at 1.
  rewrite applyFallback_app.
  change (firstn 1 defaults) with
    [{| fallback := fun c => isNil (config.Transports c) && isNil (config.ListenAddrs c);
        opt := DefaultListenAddrs |}].
  rewrite applyFallback_one. reflexivity.
Qed.

Lemma FallbackDefaults_second (cfg : Config) :
  applyFallback (skipn 1 defaults) cfg =
  match (if isNil (config.Transports cfg)
         then DefaultTransports cfg else (cfg, None)) with
  | (c, Some err) => (c, Some err)
  | (c, None) => applyFallback (skipn 2 defaults) c
  end.
Proof.
  change (skipn 1 defaults) with
    ([{| fallback := fun c => isNil (config.Transports c); opt := DefaultTransports |}]
       ++ skipn 2 defaults).
  rewrite applyFallback_app, applyFallback_one. reflexivity.
Qed.

(** The defaults after the first leave the listen addresses alone. *)
Lemma later_defaults_keep_ListenAddrs (cfg : Config) :
  config.ListenAddrs (fst (applyFallback (skipn 1 defaults) cfg)) = config.ListenAddrs cfg.
Proof.
  apply (applyFallback_invariant
           (fun c => config.ListenAddrs c = config.ListenAddrs cfg)); [|reflexivity].
  cbn [skipn]. split_table; run_default; auto.
Qed.

(** The defaults after the second leave the transports alone. *)
Lemma later_defaults_keep_Transports (cfg : Config) :
  config.Transports (fst (applyFallback (skipn 2 defaults) cfg)) = config.Transports cfg.
Proof.
  apply (applyFallback_invariant
           (fun c => config.Transports c = config.Transports cfg)); [|reflexivity].
  cbn [skipn]. split_table; run_default; auto.
Qed.

(** Once the transports are not [nil], no entry of the pass touches the
    transports or the listen addresses. *)
Lemma set_transports_freeze (cfg : Config) :
  isNil (config.Transports cfg) = false ->
  config.Transports (fst (FallbackDefaults cfg)) = config.Transports cfg /\
  config.ListenAddrs (fst (FallbackDefaults cfg)) = config.ListenAddrs cfg.
Proof.
  intros Hset. rewrite FallbackDefaults_first, Hset. cbn [andb].
  rewrite later_defaults_keep_ListenAddrs, FallbackDefaults_second, Hset.
  rewrite later_defaults_keep_Transports. split; reflexivity.
Qed.

(** Once the listen addresses are not [nil], the pass leaves them alone. *)
Lemma set_listen_addrs_freeze (cfg : Config) :
  isNil (config.ListenAddrs cfg) = false ->
  config.ListenAddrs (fst (FallbackDefaults cfg)) = config.ListenAddrs cfg.
Proof.
  intros Hset. rewrite FallbackDefaults_first, Hset, andb_false_r.
  apply later_defaults_keep_ListenAddrs.
Qed.

(** The first step of the pass when neither slot was touched and the parser
    accepts the two wildcard addresses. *)
Lemma untouched_first_step (cfg : Config) (a4 a6 : ma_Multiaddr) :
  isNil (config.Transports cfg) = true ->
  isNil (config.ListenAddrs cfg) = true ->
  ma_NewMultiaddr "/ip4/0.0.0.0/tcp/0" = (a4, None) ->
  ma_NewMultiaddr "/ip6/::/tcp/0" = (a6, None) ->
  FallbackDefaults cfg =
  applyFallback (skipn 1 defaults) (config.setListenAddrs (Some [a4; a6]) cfg).
Proof.
  intros HT HL H4 H6.
  rewrite FallbackDefaults_first, HT, HL. cbn [andb].
  rewrite DefaultListenAddrs_eq, H4, H6. cbn.
  unfold parsed. rewrite H4, H6.
  destruct (config.ListenAddrs cfg); [discriminate | reflexivity].
Qed.

Lemma default_listen_addrs_injected (cfg : Config) (a4 a6 : ma_Multiaddr) :
  isNil (config.Transports cfg) = true ->
  isNil (config.ListenAddrs cfg) = true ->
  ma_NewMultiaddr "/ip4/0.0.0.0/tcp/0" = (a4, None) ->
  ma_NewMultiaddr "/ip6/::/tcp/0" = (a6, None) ->
  config.ListenAddrs (fst (FallbackDefaults cfg)) = Some [a4; a6].
Proof.
  intros HT HL H4 H6.
  rewrite (untouched_first_step cfg a4 a6 HT HL H4 H6).
  now rewrite later_defaults_keep_ListenAddrs.
Qed.

(** The transports the pass stores when they were [nil]. *)
Lemma default_transports_injected (cfg : Config) :
  isNil (config.Transports cfg) = true ->
  config.Transports (fst (applyFallback (skipn 1 defaults) cfg)) =
  Some [Some tcp.NewTCPTransport; Some ws.New].
Proof.
  intros HT. rewrite FallbackDefaults_second, HT, DefaultTransports_eq.
  rewrite later_defaults_keep_Transports. cbn.
  destruct (config.Transports cfg); [discriminate | reflexivity].
Qed.

(** C1.  When the listen addresses are [nil] and the transports are not,
    the predicate of the first entry of the table (the one that guards
    [DefaultListenAddrs]) is false, the fallback pass leaves the listen
    addresses [nil], and the finished [Config] has zero listen addresses. *)
Theorem custom_transports_suppress_default_listen_addrs (cfg : Config) :
  isNil (config.ListenAddrs cfg) = true ->
  isNil (config.Transports cfg) = false ->
  (exists d rest, defaults = d :: rest /\ opt d = DefaultListenAddrs /\ fallback d cfg = false)
  /\ isNil (config.ListenAddrs (fst (FallbackDefaults cfg))) = true
  /\ len (config.ListenAddrs (fst (FallbackDefaults cfg))) = 0.
Proof.
  intros HL HT. split.
  - eexists; eexists; split; [reflexivity|]. split; [reflexivity|].
    cbn. now rewrite HT.
  - destruct (set_transports_freeze cfg HT) as [_ Hkeep].
    rewrite Hkeep. split; [exact HL | now apply len_nil_slice].
Qed.

(** C2.  After [NoTransports], which cannot fail, the transports are an
    allocated empty slice; the fallback pass then skips [DefaultTransports]
    and the transports are still empty (and still not [nil]) afterwards.
    When the transports are [nil] instead and the parser accepts the two
    wildcard addresses, the pass stores the two default transports. *)
Theorem no_transports_suppresses_default_transports (cfg : Config) :
  snd (NoTransports cfg) = None
  /\ config.Transports (fst (NoTransports cfg)) = Some []
  /\ config.Transports (fst (FallbackDefaults (fst (NoTransports cfg)))) = Some []
  /\ (isNil (config.Transports cfg) = true ->
      snd (ma_NewMultiaddr "/ip4/0.0.0.0/tcp/0") = None ->
      snd (ma_NewMultiaddr "/ip6/::/tcp/0") = None ->
      config.Transports (fst (FallbackDefaults cfg)) =
      Some [Some tcp.NewTCPTransport; Some ws.New]).
Proof.
  split; [reflexivity|]. split; [reflexivity|]. split.
  - destruct (set_transports_freeze (fst (NoTransports cfg))) as [Hkeep _];
      [reflexivity | exact Hkeep].
  - intros HT H4 H6.
    rewrite FallbackDefaults_first, HT. cbn [andb].
    destruct (isNil (config.ListenAddrs cfg)) eqn:HL.
    + rewrite DefaultListenAddrs_eq, H4, H6.
      apply default_transports_injected. exact HT.
    + now apply default_transports_injected.
Qed.

(** C6.  When neither the transports nor the listen addresses were touched
    (both are [nil]) and the address parser accepts the two wildcard texts,
    yielding [a4] and [a6], the fallback pass leaves exactly [a4; a6] as the
    listen addresses: the IPv4 and the IPv6 wildcard, each with port 0, in
    that order. *)
Theorem untouched_config_gets_default_listen_addrs
    (cfg : Config) (a4 a6 : ma_Multiaddr) :
  isNil (config.Transports cfg) = true ->
  isNil (config.ListenAddrs cfg) = true ->
  ma_NewMultiaddr "/ip4/0.0.0.0/tcp/0" = (a4, None) ->
  ma_NewMultiaddr "/ip6/::/tcp/0" = (a6, None) ->
  config.ListenAddrs (fst (FallbackDefaults cfg)) = Some [a4; a6]
  /\ len (config.ListenAddrs (fst (FallbackDefaults cfg))) = 2.
Proof.
  intros HT HL H4 H6.
  rewrite (default_listen_addrs_injected cfg a4 a6 HT HL H4 H6).
  split; reflexivity.
Qed.

(** C9.  [ListenAddrs] with no address, applied to a [Config] whose listen
    addresses are [nil], returns no error and changes nothing: the slot is
    still [nil], so the fallback pass does what it does without that call,
    and injects the two default addresses when the transports are [nil]
    too and the parser accepts them.  After [NoListenAddrs] the slot is an
    allocated empty slice and the pass leaves it empty. *)
Theorem empty_ListenAddrs_call_keeps_slot_nil (cfg : Config) :
  isNil (config.ListenAddrs cfg) = true ->
  ListenAddrs [] cfg = (cfg, None)
  /\ isNil (config.ListenAddrs (fst (ListenAddrs [] cfg))) = true
  /\ FallbackDefaults (fst (ListenAddrs [] cfg)) = FallbackDefaults cfg
  /\ (forall a4 a6,
        isNil (config.Transports cfg) = true ->
        ma_NewMultiaddr "/ip4/0.0.0.0/tcp/0" = (a4, None) ->
        ma_NewMultiaddr "/ip6/::/tcp/0" = (a6, None) ->
        config.ListenAddrs (fst (FallbackDefaults (fst (ListenAddrs [] cfg)))) =
        Some [a4; a6])
  /\ config.ListenAddrs (fst (NoListenAddrs cfg)) = Some []
  /\ config.ListenAddrs (fst (FallbackDefaults (fst (NoListenAddrs cfg)))) = Some [].
Proof.
  intros HL.
  assert (Hnoop : ListenAddrs [] cfg = (cfg, None)).
  { unfold ListenAddrs. rewrite sliceAppend_nothing. destruct cfg; reflexivity. }
  rewrite Hnoop. cbn [fst].
  split; [reflexivity|]. split; [exact HL|]. split; [reflexivity|]. split.
  - intros a4 a6 HT H4 H6. now apply default_listen_addrs_injected.
  - split; [reflexivity|].
    now rewrite set_listen_addrs_freeze.
Qed.

End FallbackListenTransports.

(** ** The order of the fallback pass *)
Section FallbackOrder.
Context {E : Externals}.

Lemma applyFallback_at (before after : list defaultEntry) (d : defaultEntry) (cfg : Config) :
  applyFallback (before ++ d :: after) cfg =
  match applyFallback before cfg with
  | (cfg1, Some err) => (cfg1, Some err)
  | (cfg1, None) =>
      if fallback d cfg1 then
        match opt d cfg1 with
        | (cfg2, Some err) => (cfg2, Some err)
        | (cfg2, None) => applyFallback after cfg2
        end
      else applyFallback after cfg1
  end.
Proof.
  rewrite applyFallback_app.
  destruct (applyFallback before cfg) as [cfg1 [err|]]; [reflexivity|].
  change (d :: after) with ([d] ++ after).
  rewrite applyFallback_app, applyFallback_one.
  destruct (fallback d cfg1); [|reflexivity].
  destruct (opt d cfg1) as [cfg2 [err|]]; reflexivity.
Qed.

Lemma applyFallback_cons (d : defaultEntry) (rest : list defaultEntry) (cfg : Config) :
  applyFallback (d :: rest) cfg =
  if fallback d cfg then
    match opt d cfg with
    | (cfg', Some err) => (cfg', Some err)
    | (cfg', None) => applyFallback rest cfg'
    end
  else applyFallback rest cfg.
Proof.
  simpl. destruct (fallback d cfg); simpl; [|reflexivity].
  destruct (opt d cfg) as [c [e|]]; reflexivity.
Qed.

Lemma applyFallback_is_sequential (table : list defaultEntry) (cfg : Config) :
  SequentialPass table cfg (applyFallback table cfg).
Proof.
  revert cfg; induction table as [|d rest IH]; intros cfg.
  - apply pass_end.
  - rewrite applyFallback_cons.
    destruct (fallback d cfg) eqn:Hgate; [|now apply pass_skip].
    destruct (opt d cfg) as [cfg' [err|]] eqn:Hstep.
    + now apply pass_error.
    + now apply (pass_apply d rest cfg cfg').
Qed.

Lemma SequentialPass_is_applyFallback
    (table : list defaultEntry) (cfg : Config) (r : Config * option error) :
  SequentialPass table cfg r -> applyFallback table cfg = r.
Proof.
  induction 1 as [cfg | d rest cfg r Hgate _ IH | d rest cfg cfg' err Hgate Hstep
                  | d rest cfg cfg' r Hgate Hstep _ IH];
    [reflexivity | | |]; rewrite applyFallback_cons, Hgate; try rewrite Hstep; auto.
Qed.

(** C5.  The loop of the fallback pass, over any table, returns exactly
    what the pass described in the design returns: entries in table order,
    each predicate evaluated on the [Config] the earlier entries left, the
    Option applied only when its predicate holds, the first error returned
    at once with nothing more applied, and no error after the last entry.
    [FallbackDefaults] is that loop over the table of the six defaults in
    their order.  The loop is not the snapshot reading: on a table whose
    first entry fills the slot the second entry's predicate reads, the loop
    passes over the second entry, whereas predicates evaluated on the
    [Config] of the start of the pass would apply it. *)
Theorem fallback_pass_is_sequential :
  (forall table cfg r, applyFallback table cfg = r <-> SequentialPass table cfg r)
  /\ (forall cfg r, FallbackDefaults cfg = r <-> SequentialPass defaults cfg r)
  /\ map opt defaults =
       [DefaultListenAddrs; DefaultTransports; DefaultMuxers;
        DefaultSecurity; RandomIdentity; DefaultPeerstore]
  /\ applyFallback clearThenDefaultTransports config.zero =
       (config.setTransports (Some []) config.zero, None)
  /\ applyFallbackSnapshot config.zero clearThenDefaultTransports config.zero =
       (config.setTransports (Some [Some tcp.NewTCPTransport; Some ws.New]) config.zero,
        None).
Proof.
  assert (Hloop : forall table cfg r,
             applyFallback table cfg = r <-> SequentialPass table cfg r).
  { intros table cfg r. split.
    - intros <-. apply applyFallback_is_sequential.
    - apply SequentialPass_is_applyFallback. }
  split; [exact Hloop|]. split.
  - intros cfg r. unfold FallbackDefaults. apply Hloop.
  - split; [reflexivity|]. split; reflexivity.
Qed.

End FallbackOrder.

(** ** Constructors of the wrong shape *)
Section Registration.
Context {E : Externals}.

Lemma ill_shaped_function (i : Iface) (name : string) (params results : list GoType) :
  forallb config.inVocabulary params = false \/ config.returnsIface i results = false ->
  config.makeConstructor i (VFunc name params results) = (None, Some config.shapeMismatch).
Proof.
  intros Hbad. unfold config.makeConstructor, config.wellShaped.
  destruct Hbad as [Hp | Hr]; [rewrite Hp | rewrite Hr, andb_false_r]; reflexivity.
Qed.

(** C8.  A function value with a parameter type outside the dependency
    vocabulary, or with a return type that is not the subsystem's, is
    rejected when it is registered, whichever of [Transport], [Security]
    and [Muxer] registers it: the Option returned for it yields, on every
    [Config], one and the same error, fixed by the registering call alone;
    that error carries the file and line of the registering call; and the
    [Config] is returned as it was. *)
Theorem ill_shaped_constructor_fails_at_registration
    (i : Iface) (caller : CallSite) (name : string)
    (fname : string) (params results : list GoType) :
  forallb config.inVocabulary params = false \/ config.returnsIface i results = false ->
  exists err,
    err = traced (file caller) (line caller) config.shapeMismatch
    /\ taggedWith caller err = true
    /\ forall cfg,
         match i with
         | IfaceTransport => Transport caller
         | IfaceSecurity => Security caller name
         | IfaceMuxer => Muxer caller name
         end (VFunc fname params results) cfg = (cfg, Some err).
Proof.
  intros Hbad. eexists. split; [reflexivity|]. split.
  - cbn. now rewrite String.eqb_refl, Nat.eqb_refl.
  - pose proof (ill_shaped_function i fname params results Hbad) as Hmk.
    intros cfg.
    destruct i;
      unfold Transport, Security, Muxer, config.TransportConstructor,
        config.SecurityConstructor, config.MuxerConstructor;
      rewrite Hmk; reflexivity.
Qed.

End Registration.

(** ** The relay Option *)
Section RelayOption.
Context {E : Externals}.

(** C10.  [EnableRelay] returns no error on any [Config], whether or not
    the relay was enabled before; it sets the relay flag and stores its
    argument list; applied again it stores the new list in place of the
    old one, an empty or [nil] list included, so that only the last
    application shows. *)
Theorem EnableRelay_last_application_wins
    (first second : slice circuit_RelayOpt) (cfg : Config) :
  snd (EnableRelay first cfg) = None
  /\ config.Relay (fst (EnableRelay first cfg)) = true
  /\ config.RelayOpts (fst (EnableRelay first cfg)) = first
  /\ EnableRelay second (fst (EnableRelay first cfg)) = EnableRelay second cfg
  /\ config.RelayOpts (fst (EnableRelay (Some []) (fst (EnableRelay first cfg)))) = Some []
  /\ config.RelayOpts (fst (EnableRelay None (fst (EnableRelay first cfg)))) = None.
Proof. repeat split. Qed.

End RelayOption.

(** ** Every option, step by step *)
Section EveryOption.
Context {E : Externals}.

Lemma setListenAddrs_same (cfg : Config) :
  config.setListenAddrs (config.ListenAddrs cfg) cfg = cfg.
Proof. destruct cfg; reflexivity. Qed.

(** [ListenAddrStrings] writes the listen addresses and nothing else. *)
Lemma ListenAddrStrings_frame (s : list string) (cfg : Config) :
  exists v, fst (listenAddrStringsFrom s cfg) = config.setListenAddrs v cfg.
Proof.
  revert cfg; induction s as [|a s IH]; intros cfg; simpl.
  - exists (config.ListenAddrs cfg). now rewrite setListenAddrs_same.
  - destruct (ma_NewMultiaddr a) as [x [e|]]; simpl.
    + exists (config.ListenAddrs cfg). now rewrite setListenAddrs_same.
    + destruct (IH (config.setListenAddrs (sliceAppend (config.ListenAddrs cfg) [x]) cfg))
        as [v Hv].
      exists v. rewrite Hv. reflexivity.
Qed.

(** When every address parses, all of them are appended. *)
Lemma ListenAddrStrings_success (s : list string) (cfg cfg' : Config) :
  listenAddrStringsFrom s cfg = (cfg', None) ->
  cfg' = config.setListenAddrs (sliceAppend (config.ListenAddrs cfg) (map parsed s)) cfg.
Proof.
  revert cfg; induction s as [|a s IH]; intros cfg; simpl.
  - intros H; injection H as <-.
    now rewrite sliceAppend_nothing, setListenAddrs_same.
  - unfold parsed at 1.
    destruct (ma_NewMultiaddr a) as [x [e|]]; simpl; [discriminate|].
    intros H. apply IH in H. rewrite H. cbn.
    now rewrite sliceAppend_twice.
Qed.

Ltac unfold_option :=
  cbn [run];
  unfold NATPortMap, ListenAddrs, Security, NoSecurity, Muxer, Transport, Peerstore,
    PrivateNetwork, BandwidthReporter, Identity, ConnectionManager, AddrsFactory,
    EnableRelay, FilterAddresses, NATManager, NoListenAddrs, NoTransports,
    config.SecurityConstructor, config.MuxerConstructor, config.TransportConstructor,
    config.makeConstructor, traceError.

Ltac step_cases o :=
  destruct o; try discriminate;
  rewrite ?DefaultTransports_eq, ?DefaultMuxers_eq, ?DefaultSecurity_eq,
    ?DefaultPeerstore_eq, ?RandomIdentity_eq, ?DefaultListenAddrs_eq;
  unfold_option;
  rewrite ?DefaultTransports_eq, ?DefaultMuxers_eq, ?DefaultSecurity_eq,
    ?DefaultPeerstore_eq, ?RandomIdentity_eq, ?DefaultListenAddrs_eq;
  unfold_option.

(** A failing option that validates first returns the [Config] it was given. *)
Lemma step_failure (o : Opt) (cfg cfg' : Config) (e : error) :
  validatesFirst o = true ->
  run o cfg = (cfg', Some e) -> cfg' = cfg.
Proof.
  intros Hv. step_cases o; repeat break_match; intros H; congruence.
Qed.

(** A succeeding option other than the two passes does what is intended. *)
Lemma step_success (o : Opt) (cfg cfg' : Config) :
  isPass o = false ->
  run o cfg = (cfg', None) -> cfg' = intendedStep o cfg.
Proof.
  intros Hp. destruct (validatesFirst o) eqn:Hv.
  - revert Hv. step_cases o; intros _; cbn [intendedStep];
      repeat break_match; intros H; try congruence;
      match goal with
      | Hc : (if ?b then _ else _) = _ |- _ =>
          destruct b; injection Hc as <- <-; cbn in *;
          first [congruence | injection H as <-; reflexivity]
      end.
  - destruct o; try discriminate. cbn [run intendedStep]. unfold ListenAddrStrings.
    apply ListenAddrStrings_success.
Qed.

(** Each entry of the table applies one of the options of the catalogue, in
    the order of [defaultOpts], under the condition [unaddressed] gives. *)
Lemma defaults_are_options :
  Forall2 (fun e d => isPass d = false /\ opt e = run d /\
                      forall c, fallback e c = unaddressed d c)
          defaults defaultOpts.
Proof.
  unfold defaults, defaultOpts.
  repeat (apply Forall2_cons || apply Forall2_nil);
    (split; [reflexivity|]; split; [reflexivity|]; intros c; cbn;
     try reflexivity; apply andb_comm).
Qed.

Lemma applyAll_success (table : list defaultEntry) (ds : list Opt) :
  Forall2 (fun e d => isPass d = false /\ opt e = run d /\
                      forall c, fallback e c = unaddressed d c) table ds ->
  forall cfg cfg', applyAll table cfg = (cfg', None) ->
  cfg' = fold_left (fun c d => intendedStep d c) ds cfg.
Proof.
  induction 1 as [|e d table ds (Hp & Hrun & _) _ IH]; intros cfg cfg'; simpl.
  - intros H; now injection H as <-.
  - rewrite Hrun. destruct (run d cfg) as [c [err|]] eqn:Hstep; [discriminate|].
    apply (step_success d cfg c Hp) in Hstep. subst c. apply IH.
Qed.

Lemma applyFallback_success (table : list defaultEntry) (ds : list Opt) :
  Forall2 (fun e d => isPass d = false /\ opt e = run d /\
                      forall c, fallback e c = unaddressed d c) table ds ->
  forall cfg cfg', applyFallback table cfg = (cfg', None) ->
  cfg' = fold_left (fun c d => if unaddressed d c then intendedStep d c else c) ds cfg.
Proof.
  induction 1 as [|e d table ds (Hp & Hrun & Hgate) _ IH]; intros cfg cfg'; simpl.
  - intros H; now injection H as <-.
  - rewrite Hgate. destruct (unaddressed d cfg); simpl; [|apply IH].
    rewrite Hrun. destruct (run d cfg) as [c [err|]] eqn:Hstep; [discriminate|].
    apply (step_success d cfg c Hp) in Hstep. subst c. apply IH.
Qed.

(** A property of the [Config] kept by every option other than the two
    passes is kept by the passes too, hence by every option. *)
Lemma run_invariant (P : Config -> Prop) :
  (forall o c, isPass o = false -> P c -> P (fst (run o c))) ->
  forall o c, P c -> P (fst (run o c)).
Proof.
  intros Hstep o c HP. destruct (isPass o) eqn:Hpass; [|now apply Hstep].
  pose proof defaults_are_options as Htable.
  destruct o; try discriminate; cbn [run]; unfold Defaults, FallbackDefaults.
  - apply applyAll_invariant; [|exact HP].
    revert Htable. generalize defaults defaultOpts.
    induction 1 as [|e d t ds (Hp & Hrun & _) _ IH]; constructor; [|exact IH].
    intros c0 HP0. rewrite Hrun. now apply Hstep.
  - apply applyFallback_invariant; [|exact HP].
    revert Htable. generalize defaults defaultOpts.
    induction 1 as [|e d t ds (Hp & Hrun & _) _ IH]; constructor; [|exact IH].
    intros c0 HP0 _. rewrite Hrun. now apply Hstep.
Qed.

End EveryOption.

(** ** Atomic failure and intended effect *)
Section Atomicity.
Context {E : Externals}.

(** C7, as it holds of the code.  Every option other than [ListenAddrStrings], [Defaults]
    and [FallbackDefaults] checks before it assigns: when it returns an
    error the [Config] is the one it was given.  Every option, those three
    included, that returns no error has carried out its intended mutation
    in full. *)
Theorem options_validate_before_mutating
    (o : Opt) (cfg cfg' : Config) (err : option error) :
  run o cfg = (cfg', err) ->
  match err with
  | Some _ => validatesFirst o = true -> cfg' = cfg
  | None => cfg' = intended o cfg
  end.
Proof.
  intros Hrun. destruct err as [e|].
  - intros Hv. exact (step_failure o cfg cfg' e Hv Hrun).
  - destruct (isPass o) eqn:Hpass.
    + destruct o; try discriminate; cbn [run intended] in *.
      * exact (applyAll_success _ _ defaults_are_options cfg cfg' Hrun).
      * exact (applyFallback_success _ _ defaults_are_options cfg cfg' Hrun).
    + replace (intended o cfg) with (intendedStep o cfg)
        by (destruct o; try discriminate; reflexivity).
      exact (step_success o cfg cfg' Hpass Hrun).
Qed.

End Atomicity.

(** ** Single-value slots *)
Section SingleValueSlots.
Context {E : Externals}.

Lemma slotKept_refl (s : Slot) (cfg : Config) : slotKept s cfg cfg.
Proof. destruct s; reflexivity. Qed.

Lemma slotKept_trans (s : Slot) (c1 c2 c3 : Config) :
  slotKept s c1 c2 -> slotKept s c2 c3 -> slotKept s c1 c3.
Proof. destruct s; cbn; congruence. Qed.

Lemma slotKept_isSet (s : Slot) (c1 c2 : Config) :
  slotKept s c1 c2 -> slotIsSet s c1 = true -> slotIsSet s c2 = true.
Proof. destruct s; cbn; congruence. Qed.

(** An option for a slot that is already set fails and changes nothing. *)
Lemma second_set_fails (s : Slot) (o : Opt) (cfg : Config) :
  slotIsSet s cfg = true -> slotOf o = Some s ->
  exists e, run o cfg = (cfg, Some e) /\ isCardinalityError e = true.
Proof.
  intros Hset Hslot.
  destruct o; try discriminate; injection Hslot as <-; cbn in Hset |- *;
    unfold Peerstore, PrivateNetwork, BandwidthReporter, Identity,
      ConnectionManager, AddrsFactory, NATPortMap, NATManager;
    rewrite Hset; eexists; split; reflexivity.
Qed.

(** No option other than the passes changes a slot that is set. *)
Lemma step_keeps_set_slot (s : Slot) (o : Opt) (cfg : Config) :
  isPass o = false -> slotIsSet s cfg = true -> slotKept s cfg (fst (run o cfg)).
Proof.
  intros Hp Hset. destruct (validatesFirst o) eqn:Hv.
  - destruct (run o cfg) as [cfg' [e|]] eqn:Hrun; cbn [fst].
    + rewrite (step_failure o cfg cfg' e Hv Hrun). apply slotKept_refl.
    + rewrite (step_success o cfg cfg' Hp Hrun).
      destruct (slotOf o) as [s'|] eqn:Hslot.
      * destruct (Slot_eq_dec s s') as [<-|Hne].
        -- destruct (second_set_fails s o cfg Hset Hslot) as (e & He & _).
           congruence.
        -- destruct o; try discriminate; injection Hslot as <-;
             destruct s; try congruence; reflexivity.
      * destruct o; try discriminate; destruct s; try reflexivity;
          exfalso; revert Hrun; cbn [run];
          rewrite ?DefaultPeerstore_eq, ?RandomIdentity_eq;
          unfold Peerstore, Identity; cbn in Hset; rewrite Hset;
          repeat break_match; discriminate.
  - destruct o as [strs| | | | | | | | | | | | | | | | | | | | | | | | |];
      try discriminate.
    cbn [run]. unfold ListenAddrStrings.
    destruct (ListenAddrStrings_frame strs cfg) as [v ->].
    destruct s; reflexivity.
Qed.

Lemma run_keeps_set_slot (s : Slot) (o : Opt) (cfg : Config) :
  slotIsSet s cfg = true ->
  slotKept s cfg (fst (run o cfg)) /\ slotIsSet s (fst (run o cfg)) = true.
Proof.
  intros Hset.
  apply (run_invariant (fun c => slotKept s cfg c /\ slotIsSet s c = true));
    [|split; [apply slotKept_refl | exact Hset]].
  intros o' c Hp [Hk Hs].
  pose proof (step_keeps_set_slot s o' c Hp Hs) as Hstep.
  split; [eapply slotKept_trans; eauto | eapply slotKept_isSet; eauto].
Qed.

Lemma Apply_keeps_set_slot (s : Slot) (opts : list Opt) (cfg : Config) :
  slotIsSet s cfg = true ->
  slotKept s cfg (fst (config.Apply (map run opts) cfg))
  /\ slotIsSet s (fst (config.Apply (map run opts) cfg)) = true.
Proof.
  revert cfg; induction opts as [|o opts IH]; intros cfg Hset; simpl.
  - split; [apply slotKept_refl | exact Hset].
  - destruct (run_keeps_set_slot s o cfg Hset) as [Hk Hs].
    destruct (run o cfg) as [c [e|]]; cbn [fst] in *; [now split|].
    destruct (IH c Hs) as [Hk' Hs'].
    split; [eapply slotKept_trans; eauto | exact Hs'].
Qed.

(** C3.  Let a single-value slot be set.  Then (1) every option for that
    slot fails with an error whose text starts with "cannot specify
    multiple" and returns the [Config] unchanged; (2) no option of the
    package, whatever it is, changes the value stored in the slot; and
    (3) a sequence of options that contains an option for that slot at
    any position ends in an error, with the slot still holding its value,
    and the error is the cardinality error whenever the options before it
    raised none. *)
Theorem single_value_slot_is_set_once (s : Slot) (cfg : Config) :
  slotIsSet s cfg = true ->
  (forall o, slotOf o = Some s ->
     exists e, run o cfg = (cfg, Some e) /\ isCardinalityError e = true)
  /\ (forall o, slotKept s cfg (fst (run o cfg)) /\ slotIsSet s (fst (run o cfg)) = true)
  /\ (forall before o after, slotOf o = Some s ->
        exists cfg' e,
          config.Apply (map run (before ++ o :: after)) cfg = (cfg', Some e)
          /\ slotKept s cfg cfg'
          /\ (snd (config.Apply (map run before) cfg) = None ->
              isCardinalityError e = true)).
Proof.
  intros Hset. split; [|split].
  - intros o Hslot. exact (second_set_fails s o cfg Hset Hslot).
  - intros o. exact (run_keeps_set_slot s o cfg Hset).
  - intros before o after Hslot.
    rewrite map_app, Apply_app.
    destruct (Apply_keeps_set_slot s before cfg Hset) as [Hk Hs].
    destruct (config.Apply (map run before) cfg) as [c1 [e1|]]; cbn [fst snd] in *.
    + exists c1, e1. split; [reflexivity|]. split; [exact Hk | discriminate].
    + destruct (second_set_fails s o c1 Hs Hslot) as (e & He & Hcard).
      exists c1, e. simpl. rewrite He. split; [reflexivity|]. split; [exact Hk | auto].
Qed.

End SingleValueSlots.

(** ** Insecure versus security transports *)
Section MutualExclusion.
Context {E : Externals}.

Lemma NoSecurity_after_security (cfg : Config) :
  (0 <? len (config.SecurityTransports cfg))%nat = true ->
  NoSecurity cfg = (cfg, Some errInsecure).
Proof. intros H. unfold NoSecurity. now rewrite H. Qed.

(** On an insecure [Config] a [Security] option fails and changes nothing;
    the error is the one kept from registration if there is one, and the
    mutual-exclusion error otherwise. *)
Lemma Security_after_insecure
    (caller : CallSite) (name : string) (tpt : GoValue) (cfg : Config) :
  config.Insecure cfg = true ->
  Security caller name tpt cfg =
  (cfg, Some (if config.wellShaped IfaceSecurity tpt then errInsecure
              else traced (file caller) (line caller) config.shapeMismatch)).
Proof.
  intros Hins. unfold Security, config.SecurityConstructor, config.makeConstructor.
  destruct (config.wellShaped IfaceSecurity tpt); cbn; [now rewrite Hins | reflexivity].
Qed.

Lemma step_keeps_exclusive (o : Opt) (cfg : Config) :
  isPass o = false -> exclusive cfg = true -> exclusive (fst (run o cfg)) = true.
Proof.
  intros Hp Hex. destruct (validatesFirst o) eqn:Hv.
  - destruct (run o cfg) as [cfg' [e|]] eqn:Hrun; cbn [fst].
    + now rewrite (step_failure o cfg cfg' e Hv Hrun).
    + pose proof (step_success o cfg cfg' Hp Hrun) as ->.
      destruct o; try discriminate; try exact Hex.
      * destruct (config.Insecure cfg) eqn:Hins.
        -- cbn [run] in Hrun. rewrite Security_after_insecure in Hrun by exact Hins.
           discriminate.
        -- unfold exclusive. cbn. now rewrite Hins.
      * cbn [run] in Hrun. unfold NoSecurity in Hrun.
        destruct (0 <? len (config.SecurityTransports cfg))%nat eqn:Hlen; [discriminate|].
        unfold exclusive, intendedStep, config.setInsecure.
        cbn [config.Insecure config.SecurityTransports]. now rewrite Hlen.
      * destruct (config.Insecure cfg) eqn:Hins.
        -- cbn [run] in Hrun. rewrite DefaultSecurity_eq, Hins in Hrun. discriminate.
        -- unfold exclusive. cbn. now rewrite Hins.
  - destruct o as [strs| | | | | | | | | | | | | | | | | | | | | | | | |];
      try discriminate.
    cbn [run]. unfold ListenAddrStrings.
    destruct (ListenAddrStrings_frame strs cfg) as [v ->]. exact Hex.
Qed.

Lemma reachable_exclusive (cfg : Config) : reachable cfg -> exclusive cfg = true.
Proof.
  induction 1 as [|o cfg _ IH]; [reflexivity|].
  apply (run_invariant (fun c => exclusive c = true)); [|exact IH].
  intros o' c Hp Hc. now apply step_keeps_exclusive.
Qed.

(** C4, as it holds of the code.  [NoSecurity] applied when at least one security
    transport is stored returns the mutual-exclusion error and the [Config]
    unchanged.  A [Security] option applied when the insecure flag is set
    returns the [Config] unchanged and an error: the mutual-exclusion error
    when its constructor value was accepted at registration, and the tagged
    registration error when it was not.  No reachable [Config] has the
    insecure flag set together with a non-empty list of security
    transports. *)
Theorem insecure_excludes_security_transports (cfg : Config) :
  ((0 <? len (config.SecurityTransports cfg))%nat = true ->
   NoSecurity cfg = (cfg, Some errInsecure))
  /\ (config.Insecure cfg = true ->
      forall caller name tpt,
        Security caller name tpt cfg =
        (cfg, Some (if config.wellShaped IfaceSecurity tpt then errInsecure
                    else traced (file caller) (line caller) config.shapeMismatch)))
  /\ (reachable cfg ->
      config.Insecure cfg && (0 <? len (config.SecurityTransports cfg))%nat = false).
Proof.
  split; [apply NoSecurity_after_security|]. split.
  - intros Hins caller name tpt. now apply Security_after_insecure.
  - intros Hreach. apply reachable_exclusive in Hreach.
    unfold exclusive in Hreach. now apply negb_true_iff in Hreach.
Qed.

End MutualExclusion.

(** * The properties on concrete inputs *)

(** The second case of [TestDefaultListenAddrs]: a user transport and no
    listen address. *)
Lemma custom_transports_witness :
  isNil (config.ListenAddrs userTransportCfg) = true
  /\ isNil (config.Transports userTransportCfg) = false
  /\ len (config.ListenAddrs (fst (FallbackDefaults userTransportCfg))) = 0.
Proof.
  split; [reflexivity|]. split; [reflexivity|].
  exact (proj2 (proj2 (custom_transports_suppress_default_listen_addrs
                         userTransportCfg eq_refl eq_refl))).
Defined.

Lemma no_transports_witness :
  config.Transports
    (fst (FallbackDefaults (fst (NoTransports (@config.zero sampleExternals))))) = Some []
  /\ config.Transports (fst (FallbackDefaults (@config.zero sampleExternals))) =
     Some [Some tcp.NewTCPTransport; Some ws.New].
Proof.
  pose proof (no_transports_suppresses_default_transports (@config.zero sampleExternals))
    as (_ & _ & Hkept & Hdefault).
  split; [exact Hkept | exact (Hdefault eq_refl eq_refl eq_refl)].
Defined.

Lemma second_identity_witness :
  slotIsSet SlotIdentity identityCfg = true
  /\ exists e,
       @run sampleExternals (@OIdentity sampleExternals (Some 8)) identityCfg = (identityCfg, Some e)
       /\ isCardinalityError e = true.
Proof.
  split; [reflexivity|].
  exact (proj1 (single_value_slot_is_set_once SlotIdentity identityCfg eq_refl)
           (@OIdentity sampleExternals (Some 8)) eq_refl).
Defined.

(** A [Security] option whose constructor was refused at registration
    reports that refusal, not the mutual exclusion, on an insecure
    [Config]. *)
Lemma Security_on_insecure_reports_registration_error :
  config.Insecure insecureCfg = true
  /\ Security testBadTransportSite "/bad/1.0.0" emptyFunc insecureCfg =
     (insecureCfg, Some (traced "p2p_test.go" 26 config.shapeMismatch))
  /\ traced "p2p_test.go" 26 config.shapeMismatch <> errInsecure.
Proof. split; [reflexivity|]. split; [reflexivity | discriminate]. Qed.

Lemma insecure_excludes_witness :
  (0 <? len (config.SecurityTransports secureCfg))%nat = true
  /\ NoSecurity secureCfg = (secureCfg, Some errInsecure)
  /\ config.Insecure insecureCfg = true
  /\ Security testUserTransportSite secio.ID secio.New insecureCfg =
     (insecureCfg, Some errInsecure).
Proof.
  split; [reflexivity|]. split.
  - exact (proj1 (insecure_excludes_security_transports secureCfg) eq_refl).
  - split; [reflexivity|].
    exact (proj1 (proj2 (insecure_excludes_security_transports insecureCfg)) eq_refl
             testUserTransportSite secio.ID secio.New).
Defined.

Lemma fallback_pass_witness :
  SequentialPass (@defaults sampleExternals) config.zero (FallbackDefaults config.zero).
Proof.
  exact (proj1 (proj1 (proj2 (@fallback_pass_is_sequential sampleExternals))
                  config.zero (FallbackDefaults config.zero)) eq_refl).
Defined.

(** The first case of [TestDefaultListenAddrs]: no option at all. *)
Lemma default_listen_addrs_witness :
  config.ListenAddrs (fst (FallbackDefaults (@config.zero sampleExternals))) =
    Some ["/ip4/0.0.0.0/tcp/0"; "/ip6/::/tcp/0"]
  /\ len (config.ListenAddrs (fst (FallbackDefaults (@config.zero sampleExternals)))) = 2.
Proof.
  exact (untouched_config_gets_default_listen_addrs
           (@config.zero sampleExternals) "/ip4/0.0.0.0/tcp/0" "/ip6/::/tcp/0"
           eq_refl eq_refl eq_refl eq_refl).
Defined.

(** [ListenAddrStrings] appends the addresses that parse before it reaches
    one that does not: it returns an error and a changed [Config]. *)
Lemma ListenAddrStrings_fails_after_appending :
  exists e cfg',
    @run sampleExternals
      (@OListenAddrStrings sampleExternals ["/ip4/127.0.0.1/tcp/0"; "garbage"])
      config.zero = (cfg', Some e)
    /\ config.ListenAddrs cfg' = Some ["/ip4/127.0.0.1/tcp/0"]
    /\ cfg' <> config.zero.
Proof.
  eexists; eexists. split; [reflexivity|]. split; [reflexivity | discriminate].
Qed.

(** The strict pass applies the defaults before the one that fails: on an
    insecure [Config] it stores listen addresses, transports and
    multiplexers, and then returns the error of [DefaultSecurity]. *)
Lemma Defaults_fails_after_applying :
  snd (Defaults insecureCfg) = Some errInsecure
  /\ config.Transports (fst (Defaults insecureCfg)) =
     Some [Some tcp.NewTCPTransport; Some ws.New]
  /\ config.Transports insecureCfg = None.
Proof. repeat split. Qed.

(** The fallback pass does the same when the key generator fails. *)
Lemma FallbackDefaults_fails_after_applying :
  snd (FallbackDefaults (@config.zero sampleExternalsNoEntropy)) =
    Some (errorString "unexpected EOF")
  /\ config.ListenAddrs (fst (FallbackDefaults (@config.zero sampleExternalsNoEntropy))) =
     Some ["/ip4/0.0.0.0/tcp/0"; "/ip6/::/tcp/0"]
  /\ config.ListenAddrs (@config.zero sampleExternalsNoEntropy) = None.
Proof. repeat split. Qed.

Lemma validate_before_mutating_witness :
  fst (@run sampleExternals
         (@OListenAddrStrings sampleExternals ["/ip4/127.0.0.1/tcp/0"]) config.zero) =
    intended (@OListenAddrStrings sampleExternals ["/ip4/127.0.0.1/tcp/0"]) config.zero
  /\ fst (@run sampleExternals (@OIdentity sampleExternals (Some 8)) identityCfg) = identityCfg.
Proof.
  split.
  - exact (options_validate_before_mutating
             (@OListenAddrStrings sampleExternals ["/ip4/127.0.0.1/tcp/0"])
             config.zero _ None eq_refl).
  - exact (options_validate_before_mutating
             (@OIdentity sampleExternals (Some 8)) identityCfg _
             (Some (errorString "cannot specify multiple identities")) eq_refl eq_refl).
Defined.

(** [TestBadTransportConstructor]: [Transport(func() {})]. *)
Lemma bad_transport_constructor_witness :
  exists err,
    err = traced "p2p_test.go" 26 config.shapeMismatch
    /\ taggedWith testBadTransportSite err = true
    /\ forall cfg : @config.Config sampleExternals,
         Transport testBadTransportSite emptyFunc cfg = (cfg, Some err).
Proof.
  exact (ill_shaped_constructor_fails_at_registration
           IfaceTransport testBadTransportSite EmptyString "func()" [] []
           (or_intror eq_refl)).
Defined.

Lemma empty_ListenAddrs_witness :
  ListenAddrs [] (@config.zero sampleExternals) = (config.zero, None)
  /\ config.ListenAddrs
       (fst (FallbackDefaults (fst (ListenAddrs [] (@config.zero sampleExternals))))) =
     Some ["/ip4/0.0.0.0/tcp/0"; "/ip6/::/tcp/0"]
  /\ config.ListenAddrs
       (fst (FallbackDefaults (fst (NoListenAddrs (@config.zero sampleExternals))))) =
     Some [].
Proof.
  pose proof (empty_ListenAddrs_call_keeps_slot_nil (@config.zero sampleExternals) eq_refl)
    as (Hnoop & _ & _ & Hinject & _ & Hnone).
  split; [exact Hnoop|]. split; [|exact Hnone].
  exact (Hinject "/ip4/0.0.0.0/tcp/0" "/ip6/::/tcp/0" eq_refl eq_refl eq_refl).
Defined.

(** * Further properties of the options *)

(** ** Listen addresses *)
Section ListenAddresses.
Context {E : Externals}.

Lemma elems_sliceAppend {A : Type} (s : slice A) (xs : list A) :
  elems (sliceAppend s xs) = elems s ++ xs.
Proof.
  destruct s as [l|]; destruct xs; simpl; rewrite ?app_nil_r; reflexivity.
Qed.

(** The loop of [ListenAddrStrings] over addresses that all parse. *)
Lemma listenAddrStringsFrom_parsed (good more : list string) (cfg : Config) :
  Forall (fun a => snd (ma_NewMultiaddr a) = None) good ->
  listenAddrStringsFrom (good ++ more) cfg =
  listenAddrStringsFrom more
    (config.setListenAddrs (sliceAppend (config.ListenAddrs cfg) (map parsed good)) cfg).
Proof.
  intros Hgood. revert cfg.
  induction Hgood as [|a good Ha _ IH]; intros cfg; simpl.
  - now rewrite sliceAppend_nothing, setListenAddrs_same.
  - unfold parsed at 1. destruct (ma_NewMultiaddr a) as [x [e|]]; [discriminate|].
    rewrite IH. cbn. now rewrite sliceAppend_twice.
Qed.

(** X1.  [ListenAddrs] never fails and touches only the listen addresses.
    After two calls in a row the slot holds the addresses that were there,
    then those of the first call, then those of the second, in that order;
    it is [nil] exactly when it was [nil] before and both calls had no
    argument; and the two calls together return what one call with the
    concatenated arguments returns. *)
Theorem ListenAddrs_accumulate (first second : list ma_Multiaddr) (cfg : Config) :
  snd (ListenAddrs first cfg) = None
  /\ snd (ListenAddrs second (fst (ListenAddrs first cfg))) = None
  /\ elems (config.ListenAddrs (fst (ListenAddrs second (fst (ListenAddrs first cfg))))) =
     elems (config.ListenAddrs cfg) ++ first ++ second
  /\ isNil (config.ListenAddrs (fst (ListenAddrs second (fst (ListenAddrs first cfg))))) =
     isNil (config.ListenAddrs cfg) && (length (first ++ second) =? 0)%nat
  /\ fst (ListenAddrs second (fst (ListenAddrs first cfg))) =
     config.setListenAddrs
       (config.ListenAddrs (fst (ListenAddrs second (fst (ListenAddrs first cfg))))) cfg
  /\ ListenAddrs second (fst (ListenAddrs first cfg)) = ListenAddrs (first ++ second) cfg.
Proof.
  split; [reflexivity|]. split; [reflexivity|].
  unfold ListenAddrs. cbn. rewrite sliceAppend_twice.
  split; [apply elems_sliceAppend|]. split.
  - destruct (config.ListenAddrs cfg) as [l|]; [reflexivity|].
    destruct (first ++ second); reflexivity.
  - split; reflexivity.
Qed.

(** X2.  When every string parses, [ListenAddrStrings] returns what
    [ListenAddrs] returns for the parsed addresses, in the same order. *)
Theorem ListenAddrStrings_all_parse (s : list string) (cfg : Config) :
  Forall (fun a => snd (ma_NewMultiaddr a) = None) s ->
  ListenAddrStrings s cfg = ListenAddrs (map parsed s) cfg.
Proof.
  intros Hgood. unfold ListenAddrStrings, ListenAddrs.
  rewrite <- (app_nil_r s) at 1.
  now rewrite (listenAddrStringsFrom_parsed s [] cfg Hgood).
Qed.

(** X3.  [ListenAddrStrings] stops at the first string that does not parse:
    it returns the parser's error for that string, the addresses before it
    are appended, and the strings after it are not looked at. *)
Theorem ListenAddrStrings_stops_at_first_failure
    (good rest : list string) (bad : string) (e : error) (cfg : Config) :
  Forall (fun a => snd (ma_NewMultiaddr a) = None) good ->
  snd (ma_NewMultiaddr bad) = Some e ->
  ListenAddrStrings (good ++ bad :: rest) cfg =
  (fst (ListenAddrs (map parsed good) cfg), Some e).
Proof.
  intros Hgood Hbad. unfold ListenAddrStrings, ListenAddrs.
  rewrite (listenAddrStringsFrom_parsed good (bad :: rest) cfg Hgood). simpl.
  destruct (ma_NewMultiaddr bad) as [x [e'|]]; simpl in Hbad; [|discriminate].
  now injection Hbad as ->.
Qed.

End ListenAddresses.

(** ** The two passes over the defaults *)
Section DefaultPasses.
Context {E : Externals}.

(** Case analysis on everything a pass reads: the slots of the [Config],
    the two parses and the key generation. *)
Ltac pass_cases cfg :=
  destruct cfg as [pk tr mx st ins pr rl ro la af fl cm nm ps rp];
  unfold FallbackDefaults, Defaults, defaults;
  cbn [applyFallback applyAll fallback opt config.Apply
       config.Transports config.ListenAddrs config.Muxers config.SecurityTransports
       config.Insecure config.PeerKey config.Peerstore];
  destruct tr as [tr|], la as [la|]; cbn [isNil andb negb];
  rewrite ?DefaultListenAddrs_eq;
  destruct (ma_NewMultiaddr "/ip4/0.0.0.0/tcp/0") as [a4 [e4|]];
  destruct (ma_NewMultiaddr "/ip6/::/tcp/0") as [a6 [e6|]];
  cbn [snd fst];
  rewrite ?DefaultTransports_eq; cbn;
  destruct mx as [mx|]; cbn;
  destruct ins, st as [st|]; cbn;
  rewrite ?RandomIdentity_eq;
  destruct pk as [pk|]; cbn;
  destruct crypto_GenerateKeyPairWithReader as [priv [ek|]]; cbn;
  destruct ps as [ps|]; cbn.

(** When the fallback pass succeeds. *)
Lemma fallback_success_conditions (cfg : Config) :
  snd (FallbackDefaults cfg) = None <->
  (isNil (config.Transports cfg) && isNil (config.ListenAddrs cfg) = true ->
     snd (ma_NewMultiaddr "/ip4/0.0.0.0/tcp/0") = None
     /\ snd (ma_NewMultiaddr "/ip6/::/tcp/0") = None)
  /\ (isSet (config.PeerKey cfg) = false ->
        snd crypto_GenerateKeyPairWithReader = None).
Proof.
  pass_cases cfg;
    (split;
     [ intros Hok; split; intros; try split; try reflexivity; discriminate
     | intros [Hparse Hkey]; try reflexivity;
       try (destruct (Hparse eq_refl); discriminate);
       specialize (Hkey eq_refl); discriminate ]).
Qed.

(** X4.  The fallback pass fails only for a reason outside the [Config]:
    it returns no error exactly when the parser accepts the two default
    addresses (needed only if transports and listen addresses are both
    [nil]) and the key generator succeeds (needed only if no identity is
    set).  No [Config] makes it fail with a conflict. *)
Theorem FallbackDefaults_succeeds_iff (cfg : Config) :
  snd (FallbackDefaults cfg) = None <->
  (isNil (config.Transports cfg) && isNil (config.ListenAddrs cfg) = true ->
     snd (ma_NewMultiaddr "/ip4/0.0.0.0/tcp/0") = None
     /\ snd (ma_NewMultiaddr "/ip6/::/tcp/0") = None)
  /\ (isSet (config.PeerKey cfg) = false ->
        snd crypto_GenerateKeyPairWithReader = None).
Proof. exact (fallback_success_conditions cfg). Qed.

(** When the strict pass succeeds. *)
Lemma strict_success_conditions (cfg : Config) :
  snd (Defaults cfg) = None <->
  snd (ma_NewMultiaddr "/ip4/0.0.0.0/tcp/0") = None
  /\ snd (ma_NewMultiaddr "/ip6/::/tcp/0") = None
  /\ config.Insecure cfg = false
  /\ snd crypto_GenerateKeyPairWithReader = None
  /\ isSet (config.PeerKey cfg) = false
  /\ isSet (config.Peerstore cfg) = false.
Proof.
  pass_cases cfg;
    (split;
     [ intros Hok; try discriminate; repeat split
     | intros (H4 & H6 & Hins & Hkey & Hpk & Hps); try reflexivity; discriminate ]).
Qed.

(** X5.  The strict pass returns no error exactly when the parser accepts
    the two default addresses, the key generator succeeds, the [Config] is
    not insecure, and neither an identity nor a peerstore is set. *)
Theorem Defaults_succeeds_iff (cfg : Config) :
  snd (Defaults cfg) = None <->
  snd (ma_NewMultiaddr "/ip4/0.0.0.0/tcp/0") = None
  /\ snd (ma_NewMultiaddr "/ip6/::/tcp/0") = None
  /\ config.Insecure cfg = false
  /\ snd crypto_GenerateKeyPairWithReader = None
  /\ isSet (config.PeerKey cfg) = false
  /\ isSet (config.Peerstore cfg) = false.
Proof. exact (strict_success_conditions cfg). Qed.

(** X6.  The fallback pass overrides nothing.  Whether it succeeds or
    fails, it leaves alone the insecure flag and every slot that has no
    default (protector, relay, address factory, filters, connection manager,
    NAT manager, reporter), and it leaves alone each of the other slots that
    was addressed before: transports, listen addresses, multiplexers or
    security transports that are not [nil], the security transports of an
    insecure [Config], an identity or a peerstore that is set. *)
Theorem FallbackDefaults_keeps_what_is_configured (cfg : Config) :
  let cfg' := fst (FallbackDefaults cfg) in
  (config.Insecure cfg' = config.Insecure cfg
   /\ config.Protector cfg' = config.Protector cfg
   /\ config.Relay cfg' = config.Relay cfg
   /\ config.RelayOpts cfg' = config.RelayOpts cfg
   /\ config.AddrsFactory cfg' = config.AddrsFactory cfg
   /\ config.Filters cfg' = config.Filters cfg
   /\ config.ConnManager cfg' = config.ConnManager cfg
   /\ config.NATManager cfg' = config.NATManager cfg
   /\ config.Reporter cfg' = config.Reporter cfg)
  /\ (isNil (config.Transports cfg) = false ->
      config.Transports cfg' = config.Transports cfg)
  /\ (isNil (config.ListenAddrs cfg) = false ->
      config.ListenAddrs cfg' = config.ListenAddrs cfg)
  /\ (isNil (config.Muxers cfg) = false ->
      config.Muxers cfg' = config.Muxers cfg)
  /\ (isNil (config.SecurityTransports cfg) = false \/ config.Insecure cfg = true ->
      config.SecurityTransports cfg' = config.SecurityTransports cfg)
  /\ (isSet (config.PeerKey cfg) = true -> config.PeerKey cfg' = config.PeerKey cfg)
  /\ (isSet (config.Peerstore cfg) = true ->
      config.Peerstore cfg' = config.Peerstore cfg).
Proof.
  cbv zeta. unfold FallbackDefaults.
  apply (applyFallback_invariant
           (fun c =>
              (config.Insecure c = config.Insecure cfg
               /\ config.Protector c = config.Protector cfg
               /\ config.Relay c = config.Relay cfg
               /\ config.RelayOpts c = config.RelayOpts cfg
               /\ config.AddrsFactory c = config.AddrsFactory cfg
               /\ config.Filters c = config.Filters cfg
               /\ config.ConnManager c = config.ConnManager cfg
               /\ config.NATManager c = config.NATManager cfg
               /\ config.Reporter c = config.Reporter cfg)
              /\ (isNil (config.Transports cfg) = false ->
                  config.Transports c = config.Transports cfg)
              /\ (isNil (config.ListenAddrs cfg) = false ->
                  config.ListenAddrs c = config.ListenAddrs cfg)
              /\ (isNil (config.Muxers cfg) = false ->
                  config.Muxers c = config.Muxers cfg)
              /\ (isNil (config.SecurityTransports cfg) = false
                  \/ config.Insecure cfg = true ->
                  config.SecurityTransports c = config.SecurityTransports cfg)
              /\ (isSet (config.PeerKey cfg) = true ->
                  config.PeerKey c = config.PeerKey cfg)
              /\ (isSet (config.Peerstore cfg) = true ->
                  config.Peerstore c = config.Peerstore cfg)));
    [|repeat split].
  split_table;
    match goal with
    | Hinv : _ /\ _, Hgate : _ = true |- _ =>
        destruct Hinv as ((Hins & Hrest) & HT & HL & HM & HS & HK & HPS);
        try (apply andb_true_iff in Hgate; destruct Hgate as [Hg1 Hg2]);
        try apply negb_true_iff in Hg1; try apply negb_true_iff in Hgate
    end;
    run_default;
    (split; [split; [congruence | exact Hrest] |]);
    repeat split; intros Hpre;
    try (specialize (HT Hpre)); try (specialize (HL Hpre));
    try (specialize (HM Hpre)); try (specialize (HS Hpre));
    try (specialize (HK Hpre)); try (specialize (HPS Hpre));
    try assumption; try congruence;
    destruct Hpre; congruence.
Qed.

(** What a successful fallback pass leaves in the slots that have a default. *)
Lemma fallback_result_slots (cfg : Config) :
  let cfg' :=
    fold_left (fun c d => if unaddressed d c then intendedStep d c else c)
      defaultOpts cfg in
  isNil (config.Transports cfg') = false
  /\ isNil (config.Muxers cfg') = false
  /\ isSet (config.Peerstore cfg') = true
  /\ (config.Insecure cfg' = true \/ isNil (config.SecurityTransports cfg') = false)
  /\ config.PeerKey cfg' =
     (if isSet (config.PeerKey cfg) then config.PeerKey cfg
      else fst crypto_GenerateKeyPairWithReader).
Proof.
  destruct cfg as [pk tr mx st ins pr rl ro la af fl cm nm ps rp].
  destruct pk, tr, mx, st, ins, la, ps; cbn; repeat split; auto.
Qed.

Lemma fallback_success_form (cfg cfg' : Config) :
  FallbackDefaults cfg = (cfg', None) ->
  cfg' = fold_left (fun c d => if unaddressed d c then intendedStep d c else c)
           defaultOpts cfg.
Proof. apply (applyFallback_success _ _ defaults_are_options). Qed.

(** A pass whose every entry is skipped or changes nothing changes nothing. *)
Lemma applyFallback_noop (table : list defaultEntry) (cfg : Config) :
  Forall (fun d => fallback d cfg = true -> opt d cfg = (cfg, None)) table ->
  applyFallback table cfg = (cfg, None).
Proof.
  induction 1 as [|d table Hd _ IH]; simpl; [reflexivity|].
  destruct (fallback d cfg); simpl; [|exact IH].
  now rewrite (Hd eq_refl).
Qed.

Lemma setPeerKey_same (cfg : Config) : config.setPeerKey (config.PeerKey cfg) cfg = cfg.
Proof. destruct cfg; reflexivity. Qed.

(** The security transports after a successful fallback pass: unless the
    [Config] is insecure there is at least one, except when the slice was
    allocated and empty before, which the pass leaves as it is. *)
Lemma fallback_result_security (cfg : Config) :
  let cfg' :=
    fold_left (fun c d => if unaddressed d c then intendedStep d c else c)
      defaultOpts cfg in
  config.Insecure cfg' = true
  \/ (0 <? len (config.SecurityTransports cfg'))%nat = true
  \/ config.SecurityTransports cfg = Some [].
Proof.
  destruct cfg as [pk tr mx st ins pr rl ro la af fl cm nm ps rp].
  destruct st as [[|entry entries]|]; destruct pk, tr, mx, ins, la, ps; cbn; auto.
Qed.

(** No option of the package stores an allocated empty slice of security
    transports: on a reachable [Config] the slice is [nil] or has entries. *)
Lemma step_keeps_security_slice (o : Opt) (cfg : Config) :
  isPass o = false ->
  config.SecurityTransports cfg = None
  \/ (0 <? len (config.SecurityTransports cfg))%nat = true ->
  config.SecurityTransports (fst (run o cfg)) = None
  \/ (0 <? len (config.SecurityTransports (fst (run o cfg))))%nat = true.
Proof.
  intros Hp Hinv. destruct (validatesFirst o) eqn:Hv.
  - destruct (run o cfg) as [cfg' [e|]] eqn:Hrun; cbn [fst].
    + now rewrite (step_failure o cfg cfg' e Hv Hrun).
    + pose proof (step_success o cfg cfg' Hp Hrun) as ->.
      destruct o; try discriminate; try exact Hinv;
        right; cbn; unfold len; rewrite elems_sliceAppend, length_app; cbn;
        rewrite Nat.add_comm; reflexivity.
  - destruct o as [strs| | | | | | | | | | | | | | | | | | | | | | | | |];
      try discriminate.
    cbn [run]. unfold ListenAddrStrings.
    destruct (ListenAddrStrings_frame strs cfg) as [v ->]. exact Hinv.
Qed.

Lemma reachable_security_slice (cfg : Config) :
  reachable cfg ->
  config.SecurityTransports cfg = None
  \/ (0 <? len (config.SecurityTransports cfg))%nat = true.
Proof.
  induction 1 as [|o cfg _ IH]; [now left|].
  apply (run_invariant
           (fun c => config.SecurityTransports c = None
                     \/ (0 <? len (config.SecurityTransports c))%nat = true));
    [|exact IH].
  intros o' c Hp Hc. now apply step_keeps_security_slice.
Qed.

(** X7.  A fallback pass that succeeded leaves every slot with a default
    addressed: transports and multiplexers are not [nil], a peerstore is
    set, the identity is the one that was set or else the generated key,
    and the security transports are not [nil] unless the [Config] is
    insecure.  Unless it is insecure, the [Config] then has at least one
    security transport, the one case apart in which the slice was
    allocated and empty before the pass; no sequence of options of the
    package produces such a slice, so after a successful pass a reachable
    [Config] is insecure or has at least one security transport. *)
Theorem FallbackDefaults_fills_every_default (cfg cfg' : Config) :
  FallbackDefaults cfg = (cfg', None) ->
  isNil (config.Transports cfg') = false
  /\ isNil (config.Muxers cfg') = false
  /\ isSet (config.Peerstore cfg') = true
  /\ (config.Insecure cfg' = true \/ isNil (config.SecurityTransports cfg') = false)
  /\ config.PeerKey cfg' =
     (if isSet (config.PeerKey cfg) then config.PeerKey cfg
      else fst crypto_GenerateKeyPairWithReader)
  /\ (config.Insecure cfg' = true
      \/ (0 <? len (config.SecurityTransports cfg'))%nat = true
      \/ config.SecurityTransports cfg = Some [])
  /\ (reachable cfg ->
      config.Insecure cfg' = true
      \/ (0 <? len (config.SecurityTransports cfg'))%nat = true).
Proof.
  intros Hok.
  pose proof (fallback_result_slots cfg) as (HT & HM & HP & HS & HK).
  pose proof (fallback_result_security cfg) as Hsec.
  cbv zeta in Hsec.
  rewrite <- (fallback_success_form cfg cfg' Hok) in *.
  repeat (split; [assumption|]).
  intros Hreach. destruct Hsec as [Hi | [Hl | Hempty]]; [now left | now right |].
  destruct (reachable_security_slice cfg Hreach) as [Hnil | Hlen];
    rewrite Hempty in *; discriminate.
Qed.

(** X8.  The fallback pass is idempotent: run again on the [Config] a
    successful pass produced, it succeeds and changes nothing. *)
Theorem FallbackDefaults_idempotent (cfg cfg' : Config) :
  FallbackDefaults cfg = (cfg', None) ->
  FallbackDefaults cfg' = (cfg', None).
Proof.
  intros Hok.
  assert (Hcond : snd (FallbackDefaults cfg) = None) by now rewrite Hok.
  apply fallback_success_conditions in Hcond. destruct Hcond as [_ Hkey].
  pose proof (fallback_result_slots cfg) as Hslots. cbv zeta in Hslots.
  rewrite <- (fallback_success_form cfg cfg' Hok) in Hslots.
  destruct Hslots as (HT & HM & HP & HS & HK).
  unfold FallbackDefaults. apply applyFallback_noop.
  split_table.
  - rewrite HT in *. discriminate.
  - congruence.
  - congruence.
  - destruct HS as [HS|HS]; rewrite HS in *;
      [discriminate | now rewrite andb_false_r in *].
  - rewrite RandomIdentity_eq.
    destruct (isSet (config.PeerKey cfg)) eqn:Hset.
    + rewrite HK, Hset in *. discriminate.
    + rewrite (Hkey eq_refl). unfold Identity.
      match goal with Hg : negb ?b = true |- _ => destruct b; [discriminate|] end.
      rewrite <- HK. now rewrite setPeerKey_same.
  - rewrite HP in *. discriminate.
Qed.

(** X9.  The strict pass extends what is configured: when it succeeds,
    the two default addresses, the two default transports, the two default
    multiplexers and the default security transport stand after the entries
    that were there, and none of those is lost. *)
Theorem Defaults_extends (cfg cfg' : Config) :
  Defaults cfg = (cfg', None) ->
  elems (config.ListenAddrs cfg') =
    elems (config.ListenAddrs cfg)
      ++ [parsed "/ip4/0.0.0.0/tcp/0"; parsed "/ip6/::/tcp/0"]
  /\ elems (config.Transports cfg') =
     elems (config.Transports cfg) ++ [Some tcp.NewTCPTransport; Some ws.New]
  /\ elems (config.Muxers cfg') =
     elems (config.Muxers cfg)
       ++ [{| config.MuxC_of := Some yamux.DefaultTransport;
              config.MuxID := "/yamux/1.0.0" |};
           {| config.MuxC_of := Some mplex.DefaultTransport;
              config.MuxID := "/mplex/6.7.0" |}]
  /\ elems (config.SecurityTransports cfg') =
     elems (config.SecurityTransports cfg)
       ++ [{| config.SecC_of := Some secio.New; config.SecID := secio.ID |}].
Proof.
  intros Hok.
  rewrite (applyAll_success _ _ defaults_are_options cfg cfg' Hok).
  cbn. rewrite !elems_sliceAppend. repeat split.
Qed.

(** No default changes what the predicate of a later entry answers. *)
Lemma defaults_independent :
  ForallOrdPairs
    (fun d d' => forall c, fallback d' (fst (opt d c)) = fallback d' c) defaults.
Proof.
  unfold defaults.
  repeat (apply FOP_cons || apply FOP_nil || apply Forall_cons || apply Forall_nil);
    cbn [fallback opt]; intros c; run_default; reflexivity.
Qed.

(** Over a table with that property the two passes agree as long as every
    predicate holds at the start. *)
Lemma passes_agree (table : list defaultEntry) :
  ForallOrdPairs
    (fun d d' => forall c, fallback d' (fst (opt d c)) = fallback d' c) table ->
  forall cfg,
    Forall (fun d => fallback d cfg = true) table ->
    applyFallback table cfg = applyAll table cfg.
Proof.
  induction 1 as [|d rest Hd _ IH]; intros cfg Hall; [reflexivity|].
  inversion Hall as [|d0 rest0 Hgate Hrest]; subst. simpl. rewrite Hgate. simpl.
  destruct (opt d cfg) as [c' [e|]] eqn:Hstep; [reflexivity|].
  apply IH. rewrite Forall_forall in *. intros d' Hin.
  specialize (Hd d' Hin cfg). rewrite Hstep in Hd. cbn in Hd.
  rewrite Hd. now apply Hrest.
Qed.

(** X10.  On a [Config] in which every predicate of the table holds (a
    fresh one, for instance) the fallback pass and the strict pass do the
    same thing, error included. *)
Theorem passes_agree_when_nothing_is_configured (cfg : Config) :
  forallb (fun d => fallback d cfg) defaults = true ->
  FallbackDefaults cfg = Defaults cfg.
Proof.
  intros Hall. unfold FallbackDefaults, Defaults.
  apply (passes_agree defaults defaults_independent).
  rewrite forallb_forall in Hall. now apply Forall_forall.
Qed.

(** X11.  No default disturbs the predicate of a later entry of the table:
    whatever an entry's Option does to a [Config], the predicates of the
    entries after it give the same answer as before.  (So the order of the
    table decides which error comes first, never which defaults apply.) *)
Theorem defaults_do_not_disturb_later_predicates
    (i j : nat) (di dj : defaultEntry) (cfg : Config) :
  i < j ->
  nth_error defaults i = Some di ->
  nth_error defaults j = Some dj ->
  fallback dj (fst (opt di cfg)) = fallback dj cfg.
Proof.
  intros Hlt Hi Hj.
  destruct i as [|[|[|[|[|[|i]]]]]]; try (destruct i; discriminate);
    destruct j as [|[|[|[|[|[|j]]]]]]; try lia; try (destruct j; discriminate);
    cbn in Hi, Hj; injection Hi as <-; injection Hj as <-; cbn [fallback opt];
    run_default; reflexivity.
Qed.

(** What a successful strict pass leaves in the slots that have a default. *)
Lemma strict_result_slots (cfg : Config) :
  let cfg' := fold_left (fun c d => intendedStep d c) defaultOpts cfg in
  isNil (config.Transports cfg') = false
  /\ isNil (config.Muxers cfg') = false
  /\ isNil (config.SecurityTransports cfg') = false
  /\ isSet (config.Peerstore cfg') = true
  /\ config.PeerKey cfg' = fst crypto_GenerateKeyPairWithReader.
Proof.
  destruct cfg as [pk tr mx st ins pr rl ro la af fl cm nm ps rp].
  destruct tr, mx, st; repeat split.
Qed.

(** X14.  The strict pass cannot be repeated: on the [Config] a successful
    strict pass produced (its peerstore is set by then) a second strict
    pass fails, whereas a fallback pass succeeds there and changes
    nothing. *)
Theorem Defaults_cannot_be_repeated (cfg cfg' : Config) :
  Defaults cfg = (cfg', None) ->
  (exists e, snd (Defaults cfg') = Some e)
  /\ FallbackDefaults cfg' = (cfg', None).
Proof.
  intros Hok.
  assert (Hcond : snd (Defaults cfg) = None) by now rewrite Hok.
  apply strict_success_conditions in Hcond.
  destruct Hcond as (_ & _ & Hins & Hkey & Hpk & _).
  pose proof (strict_result_slots cfg) as Hslots. cbv zeta in Hslots.
  rewrite <- (applyAll_success _ _ defaults_are_options cfg cfg' Hok) in Hslots.
  destruct Hslots as (HT & HM & HS & HP & HK).
  split.
  - destruct (snd (Defaults cfg')) as [e|] eqn:Hagain; [now exists e|].
    apply strict_success_conditions in Hagain.
    destruct Hagain as (_ & _ & _ & _ & _ & Hps). congruence.
  - unfold FallbackDefaults. apply applyFallback_noop. split_table.
    + rewrite HT in *. discriminate.
    + congruence.
    + congruence.
    + rewrite HS, andb_false_r in *. discriminate.
    + rewrite RandomIdentity_eq, Hkey. unfold Identity.
      match goal with Hg : negb ?b = true |- _ => destruct b; [discriminate|] end.
      rewrite <- HK. now rewrite setPeerKey_same.
    + rewrite HP in *. discriminate.
Qed.

End DefaultPasses.

(** ** What no option undoes *)
Section NeverUndone.
Context {E : Externals}.

Lemma Apply_run_invariant (P : Config -> Prop) :
  (forall o c, P c -> P (fst (run o c))) ->
  forall opts c, P c -> P (fst (config.Apply (map run opts) c)).
Proof.
  intros Hstep opts. induction opts as [|o opts IH]; intros c HP; simpl; [exact HP|].
  specialize (Hstep o c HP).
  destruct (run o c) as [c' [e|]]; cbn [fst] in *; [exact Hstep | now apply IH].
Qed.

Lemma step_keeps_insecure (o : Opt) (cfg : Config) :
  isPass o = false ->
  config.Insecure cfg = true ->
  config.Insecure (fst (run o cfg)) = true
  /\ config.SecurityTransports (fst (run o cfg)) = config.SecurityTransports cfg.
Proof.
  intros Hp Hins. destruct (validatesFirst o) eqn:Hv.
  - destruct (run o cfg) as [cfg' [e|]] eqn:Hrun; cbn [fst].
    + rewrite (step_failure o cfg cfg' e Hv Hrun). now split.
    + pose proof (step_success o cfg cfg' Hp Hrun) as ->.
      destruct o; try discriminate; try (split; [exact Hins | reflexivity]).
      * cbn [run] in Hrun. rewrite Security_after_insecure in Hrun by exact Hins.
        discriminate.
      * split; reflexivity.
      * cbn [run] in Hrun. rewrite DefaultSecurity_eq, Hins in Hrun. discriminate.
  - destruct o as [strs| | | | | | | | | | | | | | | | | | | | | | | | |];
      try discriminate.
    cbn [run]. unfold ListenAddrStrings.
    destruct (ListenAddrStrings_frame strs cfg) as [v ->]. now split.
Qed.

(** X12.  The insecure flag is final.  Once it is set, no sequence of
    options of this package clears it, and none adds, removes or replaces
    a security transport: the passes over the defaults inject none, and
    [Security] fails. *)
Theorem insecure_is_final (opts : list Opt) (cfg : Config) :
  config.Insecure cfg = true ->
  config.Insecure (fst (config.Apply (map run opts) cfg)) = true
  /\ config.SecurityTransports (fst (config.Apply (map run opts) cfg)) =
     config.SecurityTransports cfg.
Proof.
  intros Hins.
  apply (Apply_run_invariant
           (fun c => config.Insecure c = true
                     /\ config.SecurityTransports c = config.SecurityTransports cfg));
    [|now split].
  intros o c HP.
  apply (run_invariant
           (fun c => config.Insecure c = true
                     /\ config.SecurityTransports c = config.SecurityTransports cfg));
    [|exact HP].
  intros o' c' Hp [Hi Hs].
  destruct (step_keeps_insecure o' c' Hp Hi) as [Hi' Hs'].
  split; [exact Hi' | congruence].
Qed.

(** [ListenAddrStrings] only appends: what it leaves is what was there
    followed by some addresses. *)
Lemma ListenAddrStrings_appends (s : list string) (cfg : Config) :
  exists more,
    fst (listenAddrStringsFrom s cfg) =
    config.setListenAddrs (sliceAppend (config.ListenAddrs cfg) more) cfg.
Proof.
  revert cfg; induction s as [|a s IH]; intros cfg; simpl.
  - exists []. now rewrite sliceAppend_nothing, setListenAddrs_same.
  - destruct (ma_NewMultiaddr a) as [x [e|]]; simpl.
    + exists []. now rewrite sliceAppend_nothing, setListenAddrs_same.
    + destruct (IH (config.setListenAddrs (sliceAppend (config.ListenAddrs cfg) [x]) cfg))
        as [more Hmore].
      exists (x :: more). rewrite Hmore. cbn. now rewrite sliceAppend_twice.
Qed.

Ltac grow_entry :=
  match goal with
  | Hinv : _ /\ _ |- _ => destruct Hinv as ((? & ?) & (? & ?) & (? & ?) & (? & ?))
  end;
  run_default;
  repeat split;
  rewrite ?elems_sliceAppend;
  repeat match goal with
         | Hg : elems _ = _ ++ _ |- _ => rewrite Hg; clear Hg
         end;
  rewrite <- ?app_assoc;
  eexists; reflexivity.

Lemma passes_only_append (o : Opt) (cfg : Config) :
  isPass o = true ->
  (exists more, elems (config.Muxers (fst (run o cfg))) =
                elems (config.Muxers cfg) ++ more)
  /\ (exists more, elems (config.SecurityTransports (fst (run o cfg))) =
                   elems (config.SecurityTransports cfg) ++ more)
  /\ (exists more, elems (config.ListenAddrs (fst (run o cfg))) =
                   elems (config.ListenAddrs cfg) ++ more)
  /\ (exists more, elems (config.Transports (fst (run o cfg))) =
                   elems (config.Transports cfg) ++ more).
Proof.
  intros Hp.
  assert (Hstart :
    (exists more, elems (config.Muxers cfg) = elems (config.Muxers cfg) ++ more)
    /\ (exists more, elems (config.SecurityTransports cfg) =
                     elems (config.SecurityTransports cfg) ++ more)
    /\ (exists more, elems (config.ListenAddrs cfg) =
                     elems (config.ListenAddrs cfg) ++ more)
    /\ (exists more, elems (config.Transports cfg) =
                     elems (config.Transports cfg) ++ more))
    by (repeat split; exists []; now rewrite app_nil_r).
  destruct o; try discriminate; cbn [run]; unfold Defaults, FallbackDefaults.
  - apply (applyAll_invariant
             (fun c =>
                (exists more, elems (config.Muxers c) =
                              elems (config.Muxers cfg) ++ more)
                /\ (exists more, elems (config.SecurityTransports c) =
                                 elems (config.SecurityTransports cfg) ++ more)
                /\ (exists more, elems (config.ListenAddrs c) =
                                 elems (config.ListenAddrs cfg) ++ more)
                /\ (exists more, elems (config.Transports c) =
                                 elems (config.Transports cfg) ++ more)));
      [|exact Hstart].
    split_table; grow_entry.
  - apply (applyFallback_invariant
             (fun c =>
                (exists more, elems (config.Muxers c) =
                              elems (config.Muxers cfg) ++ more)
                /\ (exists more, elems (config.SecurityTransports c) =
                                 elems (config.SecurityTransports cfg) ++ more)
                /\ (exists more, elems (config.ListenAddrs c) =
                                 elems (config.ListenAddrs cfg) ++ more)
                /\ (exists more, elems (config.Transports c) =
                                 elems (config.Transports cfg) ++ more)));
      [|exact Hstart].
    split_table; grow_entry.
Qed.

(** X13.  Entries are never taken away.  Whatever option is applied, the
    multiplexers and the security transports afterwards are those from
    before, in the same order, followed by zero or more new ones; the same
    holds of the listen addresses unless the option is [NoListenAddrs], and
    of the transports unless it is [NoTransports]. *)
Theorem entries_are_never_removed (o : Opt) (cfg : Config) :
  (exists more, elems (config.Muxers (fst (run o cfg))) =
                elems (config.Muxers cfg) ++ more)
  /\ (exists more, elems (config.SecurityTransports (fst (run o cfg))) =
                   elems (config.SecurityTransports cfg) ++ more)
  /\ (o <> ONoListenAddrs ->
      exists more, elems (config.ListenAddrs (fst (run o cfg))) =
                   elems (config.ListenAddrs cfg) ++ more)
  /\ (o <> ONoTransports ->
      exists more, elems (config.Transports (fst (run o cfg))) =
                   elems (config.Transports cfg) ++ more).
Proof.
  destruct (isPass o) eqn:Hp.
  - destruct (passes_only_append o cfg Hp) as (HM & HS & HL & HT).
    repeat split; auto.
  - destruct (validatesFirst o) eqn:Hv.
    + destruct (run o cfg) as [cfg' [e|]] eqn:Hrun; cbn [fst].
      * rewrite (step_failure o cfg cfg' e Hv Hrun).
        repeat split; intros; exists []; now rewrite app_nil_r.
      * pose proof (step_success o cfg cfg' Hp Hrun) as ->.
        destruct o; try discriminate; cbn;
          repeat split; intros; try congruence;
          rewrite ?elems_sliceAppend; eexists;
          first [reflexivity | symmetry; apply app_nil_r].
    + destruct o as [strs| | | | | | | | | | | | | | | | | | | | | | | | |];
        try discriminate.
      cbn [run]. unfold ListenAddrStrings.
      destruct (ListenAddrStrings_appends strs cfg) as [more ->]. cbn.
      repeat split; intros; rewrite ?elems_sliceAppend; eexists;
        first [reflexivity | symmetry; apply app_nil_r].
Qed.

End NeverUndone.

(** ** Filters, registration order, and starting over *)
Section Accumulation.
Context {E : Externals}.

(** X15.  [FilterAddresses] never fails and touches only the filters.
    Afterwards the filter set is the one that was there (a new one if the
    slot was [nil]) with a dial filter added for every argument, first
    argument first; so a filter set is left behind even by a call with no
    argument, and two calls in a row add the same dial filters, in the same
    order, as one call with the concatenated arguments. *)
Theorem FilterAddresses_accumulate (first second : list net_IPNet) (cfg : Config) :
  snd (FilterAddresses first cfg) = None
  /\ config.Filters (fst (FilterAddresses first cfg)) =
     Some (fold_left filter_AddDialFilter first
             (match config.Filters cfg with
              | Some existing => existing
              | None => filter_NewFilters
              end))
  /\ fst (FilterAddresses first cfg) =
     config.setFilters (config.Filters (fst (FilterAddresses first cfg))) cfg
  /\ config.Filters (fst (FilterAddresses second (fst (FilterAddresses first cfg)))) =
     Some (fold_left filter_AddDialFilter second
             (fold_left filter_AddDialFilter first
                (match config.Filters cfg with
                 | Some existing => existing
                 | None => filter_NewFilters
                 end)))
  /\ FilterAddresses second (fst (FilterAddresses first cfg)) =
     FilterAddresses (first ++ second) cfg.
Proof.
  split; [reflexivity|].
  unfold FilterAddresses. cbn. rewrite fold_left_app.
  destruct (config.Filters cfg); repeat split.
Qed.

(** X16.  Constructors that the adapter accepts are stored in the order
    of their [Transport] calls, after the transports already present, and
    none of the calls fails. *)
Theorem Transports_register_in_order
    (caller : CallSite) (tpts : list GoValue) (cfg : Config) :
  forallb (config.wellShaped IfaceTransport) tpts = true ->
  config.Apply (map (Transport caller) tpts) cfg =
  (config.setTransports (sliceAppend (config.Transports cfg) (map Some tpts)) cfg, None).
Proof.
  revert cfg; induction tpts as [|t tpts IH]; intros cfg Hall; simpl.
  - rewrite sliceAppend_nothing. destruct cfg; reflexivity.
  - simpl in Hall. apply andb_true_iff in Hall. destruct Hall as [Ht Hrest].
    unfold Transport at 1, config.TransportConstructor, config.makeConstructor.
    rewrite Ht. cbn. rewrite (IH _ Hrest). cbn. now rewrite sliceAppend_twice.
Qed.

(** X17.  Clearing and starting over.  Listen addresses given after
    [NoListenAddrs], and an accepted transport registered after
    [NoTransports], are exactly what the [Config] holds once the fallback
    pass has run: what was configured before the clearing call is gone and
    no default is added. *)
Theorem cleared_slots_hold_only_what_follows
    (addrs : list ma_Multiaddr) (caller : CallSite) (tpt : GoValue) (cfg : Config) :
  config.wellShaped IfaceTransport tpt = true ->
  config.ListenAddrs
    (fst (FallbackDefaults (fst (ListenAddrs addrs (fst (NoListenAddrs cfg)))))) =
  Some addrs
  /\ config.Transports
       (fst (FallbackDefaults (fst (Transport caller tpt (fst (NoTransports cfg)))))) =
     Some [Some tpt].
Proof.
  intros Hshape. split.
  - now rewrite set_listen_addrs_freeze.
  - unfold Transport, config.TransportConstructor, config.makeConstructor.
    rewrite Hshape. cbn.
    destruct (set_transports_freeze
                (config.setTransports (Some [Some tpt])
                   (config.setTransports (Some []) cfg)) eq_refl) as [Hkeep _].
    exact Hkeep.
Qed.

End Accumulation.

(** * The further properties on concrete inputs *)

Lemma ListenAddrStrings_all_parse_witness :
  @ListenAddrStrings sampleExternals ["/ip4/127.0.0.1/tcp/0"; "/ip6/::1/tcp/0"] config.zero =
  @ListenAddrs sampleExternals ["/ip4/127.0.0.1/tcp/0"; "/ip6/::1/tcp/0"] config.zero.
Proof.
  apply (@ListenAddrStrings_all_parse sampleExternals
           ["/ip4/127.0.0.1/tcp/0"; "/ip6/::1/tcp/0"] config.zero).
  repeat constructor.
Defined.

Lemma ListenAddrStrings_first_failure_witness :
  @ListenAddrStrings sampleExternals
    (["/ip4/127.0.0.1/tcp/0"] ++ "garbage" :: ["/ip6/::1/tcp/0"]) config.zero =
  (fst (@ListenAddrs sampleExternals ["/ip4/127.0.0.1/tcp/0"] config.zero),
   Some (errorString "invalid multiaddr, must begin with /")).
Proof.
  apply (@ListenAddrStrings_stops_at_first_failure sampleExternals
           ["/ip4/127.0.0.1/tcp/0"] ["/ip6/::1/tcp/0"] "garbage"
           (errorString "invalid multiaddr, must begin with /") config.zero);
    [repeat constructor | reflexivity].
Defined.

Lemma FallbackDefaults_fills_witness :
  isNil (config.Transports (fst (FallbackDefaults (@config.zero sampleExternals)))) = false
  /\ isNil (config.Muxers (fst (FallbackDefaults (@config.zero sampleExternals)))) = false
  /\ isSet (config.Peerstore (fst (FallbackDefaults (@config.zero sampleExternals)))) = true
  /\ (config.Insecure (fst (FallbackDefaults (@config.zero sampleExternals))) = true
      \/ (0 <? len (config.SecurityTransports
                      (fst (FallbackDefaults (@config.zero sampleExternals)))))%nat = true).
Proof.
  assert (Hok : FallbackDefaults (@config.zero sampleExternals) =
                (fst (FallbackDefaults (@config.zero sampleExternals)), None))
    by (vm_compute; reflexivity).
  pose proof (@FallbackDefaults_fills_every_default sampleExternals _ _ Hok)
    as (HT & HM & HP & _ & _ & _ & Hsec).
  split; [exact HT|]. split; [exact HM|]. split; [exact HP|].
  exact (Hsec reach_zero).
Defined.

Lemma FallbackDefaults_idempotent_witness :
  FallbackDefaults (fst (FallbackDefaults (@config.zero sampleExternals))) =
  (fst (FallbackDefaults (@config.zero sampleExternals)), None).
Proof.
  assert (Hok : FallbackDefaults (@config.zero sampleExternals) =
                (fst (FallbackDefaults (@config.zero sampleExternals)), None))
    by (vm_compute; reflexivity).
  exact (@FallbackDefaults_idempotent sampleExternals _ _ Hok).
Defined.

Lemma Defaults_extends_witness :
  elems (config.Transports (fst (Defaults userTransportCfg))) =
  elems (config.Transports userTransportCfg) ++ [Some tcp.NewTCPTransport; Some ws.New].
Proof.
  assert (Hok : Defaults userTransportCfg = (fst (Defaults userTransportCfg), None))
    by (vm_compute; reflexivity).
  exact (proj1 (proj2 (@Defaults_extends sampleExternals _ _ Hok))).
Defined.

Lemma passes_agree_witness :
  FallbackDefaults (@config.zero sampleExternalsNoEntropy) =
  Defaults (@config.zero sampleExternalsNoEntropy).
Proof.
  apply (@passes_agree_when_nothing_is_configured sampleExternalsNoEntropy config.zero).
  vm_compute; reflexivity.
Defined.

Lemma later_predicates_witness :
  isNil (config.Transports (fst (DefaultListenAddrs (@config.zero sampleExternals)))) =
  isNil (config.Transports (@config.zero sampleExternals)).
Proof.
  apply (@defaults_do_not_disturb_later_predicates sampleExternals 0 1
           {| fallback := fun c => isNil (config.Transports c) && isNil (config.ListenAddrs c);
              opt := DefaultListenAddrs |}
           {| fallback := fun c => isNil (config.Transports c); opt := DefaultTransports |}
           config.zero); [lia | reflexivity | reflexivity].
Defined.

Lemma insecure_is_final_witness :
  config.Insecure
    (fst (config.Apply
            (map run [@OSecurity sampleExternals testUserTransportSite secio.ID secio.New;
                      ODefaults; OFallbackDefaults])
            insecureCfg)) = true
  /\ config.SecurityTransports
       (fst (config.Apply
               (map run [@OSecurity sampleExternals testUserTransportSite secio.ID secio.New;
                         ODefaults; OFallbackDefaults])
               insecureCfg)) = config.SecurityTransports insecureCfg.
Proof.
  apply (@insecure_is_final sampleExternals
           [OSecurity testUserTransportSite secio.ID secio.New; ODefaults; OFallbackDefaults]
           insecureCfg).
  reflexivity.
Defined.

Lemma Defaults_cannot_be_repeated_witness :
  (exists e, snd (Defaults (fst (Defaults (@config.zero sampleExternals)))) = Some e)
  /\ FallbackDefaults (fst (Defaults (@config.zero sampleExternals))) =
     (fst (Defaults (@config.zero sampleExternals)), None).
Proof.
  assert (Hok : Defaults (@config.zero sampleExternals) =
                (fst (Defaults (@config.zero sampleExternals)), None))
    by (vm_compute; reflexivity).
  exact (@Defaults_cannot_be_repeated sampleExternals _ _ Hok).
Defined.

Lemma Transports_register_in_order_witness :
  config.Apply
    (map (@Transport sampleExternals testUserTransportSite) [ws.New; tcp.NewTCPTransport])
    userTransportCfg =
  (config.setTransports
     (sliceAppend (config.Transports userTransportCfg)
        (map Some [ws.New; tcp.NewTCPTransport])) userTransportCfg, None).
Proof.
  apply (@Transports_register_in_order sampleExternals testUserTransportSite
           [ws.New; tcp.NewTCPTransport] userTransportCfg).
  reflexivity.
Defined.

Lemma cleared_slots_witness :
  config.ListenAddrs
    (fst (FallbackDefaults
            (fst (@ListenAddrs sampleExternals ["/ip4/127.0.0.1/tcp/0"]
                    (fst (NoListenAddrs userTransportCfg)))))) =
  Some ["/ip4/127.0.0.1/tcp/0"]
  /\ config.Transports
       (fst (FallbackDefaults
               (fst (Transport testUserTransportSite ws.New
                       (fst (NoTransports userTransportCfg)))))) =
     Some [Some ws.New].
Proof.
  apply (@cleared_slots_hold_only_what_follows sampleExternals
           ["/ip4/127.0.0.1/tcp/0"] testUserTransportSite ws.New userTransportCfg).
  reflexivity.
Defined.

Lemma ListenAddrs_accumulate_witness :
  elems (config.ListenAddrs
           (fst (@ListenAddrs sampleExternals ["/ip6/::1/tcp/0"]
                   (fst (@ListenAddrs sampleExternals ["/ip4/127.0.0.1/tcp/0"]
                           config.zero))))) =
  ["/ip4/127.0.0.1/tcp/0"; "/ip6/::1/tcp/0"].
Proof.
  exact (proj1 (proj2 (proj2 (@ListenAddrs_accumulate sampleExternals
                                ["/ip4/127.0.0.1/tcp/0"] ["/ip6/::1/tcp/0"]
                                config.zero)))).
Defined.

Lemma FilterAddresses_accumulate_witness :
  config.Filters
    (fst (@FilterAddresses sampleExternals ["192.168.0.0/16"]
            (fst (@FilterAddresses sampleExternals ["10.0.0.0/8"; "172.16.0.0/12"]
                    config.zero)))) =
  Some ["10.0.0.0/8"; "172.16.0.0/12"; "192.168.0.0/16"].
Proof.
  exact (proj1 (proj2 (proj2 (proj2 (@FilterAddresses_accumulate sampleExternals
                                       ["10.0.0.0/8"; "172.16.0.0/12"]
                                       ["192.168.0.0/16"] config.zero))))).
Defined.
